(** * The Google context adapter of pipecat: model and properties

    A shallow embedding of [src/pipecat/services/google.py]: the two context
    aggregators, [GoogleLLMContext] (translation between the standard message
    schema and [glm.Content], restructuring, upgrade, the log view and the
    audio message), the streaming loop of [GoogleLLMService._process_context]
    with its generation parameters, and [GoogleTTSService] (the language
    map, the markup and [run_tts]).

    Python statements that mutate [self] become computations in a state
    monad whose state survives a raised exception, as an object's fields do.
    Libraries the module calls (json, base64, PIL, the protobuf classes) are
    collaborators: an interface whose operations the model calls and about
    which it assumes nothing unless a theorem says so. *)

From Stdlib Require Import String Ascii List Bool Arith Lia.
From Stdlib Require Import Strings.Byte.
Import ListNotations.
Open Scope string_scope.
Open Scope list_scope.

(* ================================================================== *)
(** * Python control flow: state that survives exceptions *)
(* ================================================================== *)

Module Py.

Inductive exn : Type :=
| KeyError
| IndexError
| TypeError
| ValueError
| AttributeError
| UnboundLocalError
| TransportError.

Inductive outcome (A : Type) : Type :=
| Ok (a : A)
| Raise (e : exn).

Arguments Ok {A} a.
Arguments Raise {A} e.

(** A method body: it reads and writes the object [S] and either returns or
    raises; what it wrote before raising stays written. *)
Definition M (S A : Type) : Type := S -> outcome A * S.

Definition ret {S A : Type} (a : A) : M S A := fun s => (Ok a, s).

Definition bind {S A B : Type} (m : M S A) (k : A -> M S B) : M S B :=
  fun s =>
    match m s with
    | (Ok a, s') => k a s'
    | (Raise e, s') => (Raise e, s')
    end.

Definition raise {S A : Type} (e : exn) : M S A := fun s => (Raise e, s).

Definition get {S : Type} : M S S := fun s => (Ok s, s).

Definition gets {S A : Type} (f : S -> A) : M S A := fun s => (Ok (f s), s).

Definition modify {S : Type} (f : S -> S) : M S unit := fun s => (Ok tt, f s).

(** [try: body / except Exception as e: handler e]. *)
Definition try_except {S A : Type} (body : M S A) (handler : exn -> M S A) : M S A :=
  fun s =>
    match body s with
    | (Ok a, s') => (Ok a, s')
    | (Raise e, s') => handler e s'
    end.

(** [try: body / finally: final]: the finaliser always runs; when it raises,
    its exception replaces whatever the body produced. *)
Definition try_finally {S A : Type} (body : M S A) (final : M S unit) : M S A :=
  fun s =>
    match body s with
    | (r, s') =>
        match final s' with
        | (Ok _, s'') => (r, s'')
        | (Raise e, s'') => (Raise e, s'')
        end
    end.

(** A method of a member object run from its owner. *)
Definition zoom {S T A : Type} (proj : S -> T) (inj : T -> S -> S) (m : M T A) : M S A :=
  fun s => match m (proj s) with (r, t') => (r, inj t' s) end.

Definition when {S : Type} (b : bool) (m : M S unit) : M S unit :=
  if b then m else ret tt.

(** A generator expression [(f x for x in xs)] consumed to the end: the
    first exception stops it. *)
Fixpoint for_each {S A B : Type} (f : A -> M S B) (xs : list A) : M S (list B) :=
  match xs with
  | [] => ret []
  | x :: rest =>
      bind (f x) (fun y => bind (for_each f rest) (fun ys => ret (y :: ys)))
  end.

(** A loop whose body only builds values, [[f x for x in xs]]: the first
    exception stops it. *)
Fixpoint traverse {A B : Type} (f : A -> outcome B) (xs : list A) : outcome (list B) :=
  match xs with
  | [] => Ok []
  | x :: rest =>
      match f x with
      | Raise e => Raise e
      | Ok y =>
          match traverse f rest with
          | Raise e => Raise e
          | Ok ys => Ok (y :: ys)
          end
      end
  end.

Definition result_of {S A : Type} (m : M S A) (s : S) : outcome A := fst (m s).
Definition state_after {S A : Type} (m : M S A) (s : S) : S := snd (m s).

End Py.

Import Py.

Declare Scope py_scope.
Delimit Scope py_scope with py.
Notation "x <- m ;; k" := (bind m (fun x => k))
  (at level 61, m at next level, right associativity) : py_scope.
Notation "m ;; k" := (bind m (fun _ => k))
  (at level 61, right associativity) : py_scope.
Open Scope py_scope.

(** Python truthiness of the values the module tests. *)
Definition truthy_str (s : string) : bool := negb (s =? "").

Definition truthy_list {A : Type} (l : list A) : bool :=
  match l with [] => false | _ :: _ => true end.

Definition bytes : Type := list byte.

(* ================================================================== *)
(** * JSON values and the protobuf message classes ([glm]) *)
(* ================================================================== *)

#[local] Set Warnings "-register-all".

(** JSON values; a number is kept as its literal. *)
Inductive json : Type :=
| JNull
| JBool (b : bool)
| JNumber (literal : string)
| JString (s : string)
| JArray (items : list json)
| JObject (fields : list (string * json)).

(** A [Struct]: the mapping a function call's arguments or a function
    response is carried in. *)
Definition Struct : Type := list (string * json).

Module Glm.

(** [glm.Part]: a oneof, exactly one variant active. *)
Inductive Part : Type :=
| text (s : string)
| inline_data (mime_type : string) (data : bytes)
| function_call (name : string) (args : Struct)
| function_response (name : string) (response : Struct).

(** [glm.Content]. *)
Record Content : Type := mkContent {
  role : string;
  parts : list Part
}.

(** [if part.text:] holds for the text variant with a non-empty string; the
    other variants read as the empty string. *)
Definition has_text (p : Part) : option string :=
  match p with
  | text s => if truthy_str s then Some s else None
  | _ => None
  end.

(** [part.inline_data] is truthy when a field of the blob is set.  The
    [function_call] and [function_response] variants are tested in the same
    way; every one the module builds or is handed has its name or its
    mapping set, so for them the test succeeds exactly when the variant is
    the active one. *)
Definition has_inline_data (p : Part) : option (string * bytes) :=
  match p with
  | inline_data m d => if truthy_str m || truthy_list d then Some (m, d) else None
  | _ => None
  end.

End Glm.

(* ================================================================== *)
(** * The standard (OpenAI-style) message schema *)
(* ================================================================== *)

Module Std.

(** An item of a list-valued ["content"]; any ["type"] other than text and
    image_url is carried by [item_other]. *)
Inductive content_item : Type :=
| item_text (text : string)
| item_image_url (url : string)
| item_other (type : string).

Inductive content : Type :=
| content_str (s : string)
| content_list (items : list content_item).

Record function_ref : Type := mkFunction {
  name : string;
  arguments : string
}.

Record tool_call : Type := mkToolCall {
  id : string;
  type : string;
  function : function_ref
}.

(** A message dict; [None] is an absent key. *)
Record message : Type := mkMessage {
  role : string;
  content_key : option content;
  tool_calls : option (list tool_call);
  tool_call_id : option string
}.

Definition truthy_content (c : content) : bool :=
  match c with
  | content_str s => truthy_str s
  | content_list l => truthy_list l
  end.

End Std.

(* ================================================================== *)
(** * Collaborators *)
(* ================================================================== *)

(** The library calls of the module.
    - [json_loads s]: [json.loads(s)] marshalled into a [Struct]; [None]
      when either step raises.
    - [json_dumps v]: [json.dumps] of the [to_dict] form of a [Struct].
    - [b64encode], [b64decode]: base64; [None] when decoding raises.
    - [jpeg_encode format size image]: the bytes written by
      [Image.frombytes(format, size, image).save(buffer, format="JPEG")];
      [None] when PIL raises. *)
Class Collaborators : Type := {
  json_loads : string -> option Struct;
  json_dumps : Struct -> string;
  b64encode : bytes -> string;
  b64decode : string -> option bytes;
  jpeg_encode : string -> nat * nat -> bytes -> option bytes
}.

(** [s.split(sep)] for a one-character separator. *)
Fixpoint split_on (sep : ascii) (s : string) : list string :=
  match s with
  | EmptyString => [EmptyString]
  | String c rest =>
      if Ascii.eqb c sep then EmptyString :: split_on sep rest
      else
        match split_on sep rest with
        | [] => [String c EmptyString]
        | h :: t => String c h :: t
        end
  end.

Definition comma : ascii := ","%char.

Fixpoint comma_free (s : string) : bool :=
  match s with
  | EmptyString => true
  | String c rest => negb (Ascii.eqb c comma) && comma_free rest
  end.

(* ================================================================== *)
(** * GoogleLLMContext *)
(* ================================================================== *)

Module Ctx.

Import Glm.

(** What the list [self._messages] can hold: standard message dicts before
    restructuring, [glm.Content] objects after it. *)
Inductive entry : Type :=
| Dict (m : Std.message)
| Canon (c : Content).

(** The object's [__class__]. *)
Inductive context_class : Type :=
| OpenAILLMContext
| GoogleLLMContext.

Record LLMContext : Type := mkContext {
  cls : context_class;
  _messages : list entry;
  system_message : option Std.content
}.

Definition with_cls (k : context_class) (ctx : LLMContext) : LLMContext :=
  mkContext k (_messages ctx) (system_message ctx).

Definition with_messages (l : list entry) (ctx : LLMContext) : LLMContext :=
  mkContext (cls ctx) l (system_message ctx).

Definition with_system_message (s : option Std.content) (ctx : LLMContext) : LLMContext :=
  mkContext (cls ctx) (_messages ctx) s.

(** Modelled from the spec: [add_message] of the base class
    [OpenAILLMContext], which is not part of the module: "appends,
    preserving order; no validation". *)
Definition add_message (c : Content) : M LLMContext unit :=
  modify (fun ctx => with_messages (_messages ctx ++ [Canon c]) ctx).

Definition lift {S A : Type} (r : outcome A) : M S A := fun s => (r, s).

Definition truthy_system_message (s : option Std.content) : bool :=
  match s with
  | None => false
  | Some c => Std.truthy_content c
  end.

Fixpoint drop_none {A : Type} (l : list (option A)) : list A :=
  match l with
  | [] => []
  | None :: rest => drop_none rest
  | Some a :: rest => a :: drop_none rest
  end.

Section WithCollaborators.

Context {collab : Collaborators}.

(** One item of a list-valued content, lines 309-320: the parts it adds. *)
Definition from_content_item (c : Std.content_item) : outcome (list Part) :=
  match c with
  | Std.item_text t => Ok [text t]
  | Std.item_image_url url =>
      match nth_error (split_on comma url) 1 with
      | None => Raise IndexError
      | Some payload =>
          match b64decode payload with
          | None => Raise ValueError
          | Some d => Ok [inline_data "image/jpeg" d]
          end
      end
  | Std.item_other _ => Ok []
  end.

(** One tool call, lines 287-295. *)
Definition from_tool_call (tc : Std.tool_call) : outcome Part :=
  match json_loads (Std.arguments (Std.function tc)) with
  | None => Raise ValueError
  | Some args => Ok (function_call (Std.name (Std.function tc)) args)
  end.

(** [from_standard_message], lines 276-323.  Subscripting a [glm.Content]
    raises. *)
Definition from_standard_message (message : entry) : M LLMContext (option Content) :=
  match message with
  | Canon _ => raise TypeError
  | Dict message =>
      let role := Std.role message in
      let content :=
        match Std.content_key message with
        | Some c => c
        | None => Std.content_list []
        end in
      if role =? "system" then
        modify (with_system_message (Some content)) ;;
        ret None
      else
        let role := if role =? "assistant" then "model" else role in
        match Std.tool_calls message with
        | Some (tc :: tcs) =>
            parts <- lift (traverse from_tool_call (tc :: tcs)) ;;
            ret (Some (mkContent role parts))
        | _ =>
            if role =? "tool" then
              match Std.content_key message with
              | None => raise KeyError
              | Some (Std.content_list _) => raise TypeError
              | Some (Std.content_str s) =>
                  match json_loads s with
                  | None => raise ValueError
                  | Some response =>
                      ret (Some (mkContent "model"
                                   [function_response "tool_call_result" response]))
                  end
              end
            else
              match content with
              | Std.content_str s => ret (Some (mkContent role [text s]))
              | Std.content_list items =>
                  added <- lift (traverse from_content_item items) ;;
                  ret (Some (mkContent role (concat added)))
              end
        end
  end.

(** [msg["content"].append(item)]: a string has no [append]. *)
Definition append_content (item : Std.content_item) (msg : Std.message)
  : outcome Std.message :=
  match Std.content_key msg with
  | Some (Std.content_list l) =>
      Ok (Std.mkMessage (Std.role msg) (Some (Std.content_list (l ++ [item])))
            (Std.tool_calls msg) (Std.tool_call_id msg))
  | Some (Std.content_str _) => Raise AttributeError
  | None => Raise KeyError
  end.

(** The body of the loop over [obj.parts], lines 331-360. *)
Definition to_standard_part (msg : Std.message) (part : Part) : outcome Std.message :=
  match has_text part with
  | Some t => append_content (Std.item_text t) msg
  | None =>
      match has_inline_data part with
      | Some (mime, d) =>
          append_content
            (Std.item_image_url ("data:" ++ mime ++ ";base64," ++ b64encode d)) msg
      | None =>
          match part with
          | function_call name args =>
              Ok (Std.mkMessage (Std.role msg) (Std.content_key msg)
                    (Some [Std.mkToolCall name "function"
                             (Std.mkFunction name (json_dumps args))])
                    (Std.tool_call_id msg))
          | function_response name response =>
              Ok (Std.mkMessage "tool" (Some (Std.content_str (json_dumps response)))
                    (Std.tool_calls msg) (Some name))
          | _ => Ok msg
          end
      end
  end.

Fixpoint to_standard_parts (msg : Std.message) (ps : list Part) : outcome Std.message :=
  match ps with
  | [] => Ok msg
  | p :: rest =>
      match to_standard_part msg p with
      | Ok msg' => to_standard_parts msg' rest
      | Raise e => Raise e
      end
  end.

(** [to_standard_messages], lines 325-365. *)
Definition to_standard_messages (obj : Content) : outcome (list Std.message) :=
  let msg :=
    Std.mkMessage (if role obj =? "model" then "assistant" else role obj)
      (Some (Std.content_list [])) None None in
  match to_standard_parts msg (parts obj) with
  | Raise e => Raise e
  | Ok msg =>
      match Std.content_key msg with
      | Some c =>
          if Std.truthy_content c then Ok [msg]
          else Ok [Std.mkMessage (Std.role msg) None
                     (Std.tool_calls msg) (Std.tool_call_id msg)]
      | None => Raise KeyError
      end
  end.

(** [[m for m in self._messages if m.parts]], line 385: a dict has no
    attribute [parts]. *)
Fixpoint keep_with_parts (l : list entry) : outcome (list entry) :=
  match l with
  | [] => Ok []
  | Dict _ :: _ => Raise AttributeError
  | Canon c :: rest =>
      match keep_with_parts rest with
      | Raise e => Raise e
      | Ok kept => Ok (if truthy_list (parts c) then Canon c :: kept else kept)
      end
  end.

(** The guarded part of restructuring, lines 371-381. *)
Definition translate_all : M LLMContext unit :=
  msgs <- gets _messages ;;
  translated <- for_each from_standard_message msgs ;;
  modify (with_messages (map Canon (drop_none translated))) ;;
  sm <- gets system_message ;;
  now <- gets _messages ;;
  if truthy_system_message sm && negb (truthy_list now) then
    match sm with
    | Some (Std.content_str s) => add_message (mkContent "user" [text s])
    | _ => raise TypeError
    end
  else ret tt.

(** The pruning of messages without parts, line 385. *)
Definition prune : M LLMContext unit :=
  msgs <- gets _messages ;;
  match keep_with_parts msgs with
  | Ok kept => modify (with_messages kept)
  | Raise e => raise e
  end.

(** [_restructure_from_openai_messages], lines 367-385; the handler logs
    the error. *)
Definition _restructure_from_openai_messages : M LLMContext unit :=
  modify (with_system_message None) ;;
  try_except translate_all (fun _ => ret tt) ;;
  prune.

(** [set_messages], lines 217-219. *)
Definition set_messages (messages : list Std.message) : M LLMContext unit :=
  modify (with_messages (map Dict messages)) ;;
  _restructure_from_openai_messages.

(** [upgrade_to_google], lines 209-215; the object returned is the state. *)
Definition upgrade_to_google : M LLMContext unit :=
  k <- gets cls ;;
  match k with
  | OpenAILLMContext =>
      modify (with_cls GoogleLLMContext) ;;
      _restructure_from_openai_messages
  | GoogleLLMContext => ret tt
  end.

(** [add_image_frame_message], lines 235-247. *)
Definition add_image_frame_message
  (format : string) (size : nat * nat) (image : bytes) (caption : option string)
  : M LLMContext unit :=
  match jpeg_encode format size image with
  | None => raise ValueError
  | Some jpeg =>
      let leading :=
        match caption with
        | Some t => if truthy_str t then [text t] else []
        | None => []
        end in
      add_message (mkContent "user" (leading ++ [inline_data "image/jpeg" jpeg]))
  end.

End WithCollaborators.

(** A generic context as its constructor leaves it: the standard messages
    it was given, no system message extracted yet. *)
Definition generic_context (messages : list Std.message) : LLMContext :=
  mkContext OpenAILLMContext (map Dict messages) None.

End Ctx.

(* ================================================================== *)
(** * The context aggregators *)
(* ================================================================== *)

(** What an aggregator does that others can see, in the order it does it. *)
Inductive action : Type :=
| Appended (e : Ctx.entry)
| PushFrame (messages : list Ctx.entry)
| UserPushContextFrame
| LoggedException (e : exn).

(** An action together with the aggregator's text buffer at the moment the
    action is carried out. *)
Record observation : Type := mkObservation {
  what : action;
  buffer_then : string
}.

(** The state every response aggregator has (the base class). *)
Module Aggregator.

Record LLMResponseAggregator : Type := mkAggregator {
  _aggregation : string;
  _context : Ctx.LLMContext;
  _aggregating : bool;
  observed : list observation
}.

Definition with_aggregation (s : string) (a : LLMResponseAggregator) :=
  mkAggregator s (_context a) (_aggregating a) (observed a).

Definition with_context (c : Ctx.LLMContext) (a : LLMResponseAggregator) :=
  mkAggregator (_aggregation a) c (_aggregating a) (observed a).

Definition with_aggregating (b : bool) (a : LLMResponseAggregator) :=
  mkAggregator (_aggregation a) (_context a) b (observed a).

Definition with_observed (l : list observation) (a : LLMResponseAggregator) :=
  mkAggregator (_aggregation a) (_context a) (_aggregating a) l.

Definition observe (x : action) : M LLMResponseAggregator unit :=
  modify (fun a => with_observed (observed a ++ [mkObservation x (_aggregation a)]) a).

(** A call of a method of [self._context]: the entries it appends are
    observed as the call is made. *)
Definition call_context {A : Type} (m : M Ctx.LLMContext A) : M LLMResponseAggregator A :=
  fun a =>
    match m (_context a) with
    | (r, ctx') =>
        let fresh := skipn (length (Ctx._messages (_context a))) (Ctx._messages ctx') in
        (r, with_observed
              (observed a ++ map (fun e => mkObservation (Appended e) (_aggregation a)) fresh)
              (with_context ctx' a))
    end.

(** [push_frame(OpenAILLMContextFrame(self._context))]: the frame carries
    the context as it stands. *)
Definition push_frame : M LLMResponseAggregator unit :=
  ctx <- gets _context ;;
  observe (PushFrame (Ctx._messages ctx)).

(** Modelled from the spec: [_reset] of the base class, which is not part of
    the module: it clears the text buffer and resets the auxiliary
    accumulator state. *)
Definition _reset : M LLMResponseAggregator unit :=
  modify (fun a => with_aggregating false (with_aggregation "" a)).

(** Modelled from the spec: the handling of a text fragment by the base
    class, which is not part of the module: "[onTextFragment(text)]
    transitions Idle to Accumulating or stays Accumulating, appending to the
    buffer". *)
Definition on_text_fragment (fragment : string) : M LLMResponseAggregator unit :=
  modify (fun a => with_aggregating true (with_aggregation (_aggregation a ++ fragment) a)).

Fixpoint on_text_fragments (fragments : list string) : M LLMResponseAggregator unit :=
  match fragments with
  | [] => ret tt
  | f :: rest => on_text_fragment f ;; on_text_fragments rest
  end.

(** The observations made from state [a] to state [a']. *)
Definition observed_since (a a' : LLMResponseAggregator) : list observation :=
  skipn (length (observed a)) (observed a').

Definition messages (a : LLMResponseAggregator) : list Ctx.entry :=
  Ctx._messages (_context a).

End Aggregator.

Module GoogleUserContextAggregator.

Import Aggregator.

(** [_push_aggregation], lines 107-121. *)
Definition _push_aggregation : M LLMResponseAggregator unit :=
  aggregation <- gets _aggregation ;;
  if (0 <? String.length aggregation)%nat then
    call_context (Ctx.add_message (Glm.mkContent "user" [Glm.text aggregation])) ;;
    modify (with_aggregation "") ;;
    push_frame ;;
    _reset
  else ret tt.

End GoogleUserContextAggregator.

Module GoogleAssistantContextAggregator.

Import Aggregator.

(** A function's result, of Python type [Any]: the cases the aggregator
    tells apart are falsy or not, and [str] or not. *)
Inductive payload : Type :=
| PyNone
| PyStr (s : string)
| PyDict (d : Struct).

Definition truthy_payload (p : payload) : bool :=
  match p with
  | PyNone => false
  | PyStr s => truthy_str s
  | PyDict d => truthy_list d
  end.

Record FunctionCallResultFrame : Type := mkFunctionCallResultFrame {
  function_name : string;
  tool_call_id : string;
  arguments : Struct;
  result : payload
}.

Record UserImageRawFrame : Type := mkUserImageRawFrame {
  format : string;
  size : nat * nat;
  image : bytes
}.

Record OpenAIImageMessageFrame : Type := mkOpenAIImageMessageFrame {
  user_image_raw_frame : UserImageRawFrame;
  text : option string
}.

(** The assistant aggregator: the base state and its own three fields;
    [_function_calls_in_progress] is tested for emptiness only, so its
    number of entries stands for it. *)
Record state : Type := mkState {
  base : LLMResponseAggregator;
  _function_call_result : option FunctionCallResultFrame;
  _function_calls_in_progress : nat;
  _pending_image_frame_message : option OpenAIImageMessageFrame
}.

Definition with_base (b : LLMResponseAggregator) (s : state) : state :=
  mkState b (_function_call_result s) (_function_calls_in_progress s)
    (_pending_image_frame_message s).

Definition with_function_call_result (r : option FunctionCallResultFrame) (s : state) : state :=
  mkState (base s) r (_function_calls_in_progress s) (_pending_image_frame_message s).

Definition with_pending_image (p : option OpenAIImageMessageFrame) (s : state) : state :=
  mkState (base s) (_function_call_result s) (_function_calls_in_progress s) p.

Definition inherited {A : Type} (m : M LLMResponseAggregator A) : M state A :=
  zoom base with_base m.

(** [response = frame.result], wrapped when it is a [str], lines 154-156. *)
Definition response_of (p : payload) : Struct :=
  match p with
  | PyStr s => [("response", JString s)]
  | PyDict d => d
  | PyNone => []
  end.

Definition is_some {A : Type} (o : option A) : bool :=
  match o with Some _ => true | None => false end.

Section WithCollaborators.

Context {collab : Collaborators}.

(** Lines 137-173: the function result, or else the text. *)
Definition commit_turn (aggregation : string) : M state bool :=
  pending <- gets _function_call_result ;;
  match pending with
  | Some frame =>
      modify (with_function_call_result None) ;;
      if truthy_payload (result frame) then
        inherited (call_context (Ctx.add_message
          (Glm.mkContent "model"
             [Glm.function_call (function_name frame) (arguments frame)]))) ;;
        inherited (call_context (Ctx.add_message
          (Glm.mkContent "user"
             [Glm.function_response (function_name frame) (response_of (result frame))]))) ;;
        in_progress <- gets _function_calls_in_progress ;;
        ret (negb (negb (in_progress =? 0)%nat))
      else ret false
  | None =>
      inherited (call_context (Ctx.add_message
        (Glm.mkContent "model" [Glm.text aggregation]))) ;;
      ret false
  end.

(** Lines 175-184: the pending image. *)
Definition commit_image (run_llm : bool) : M state bool :=
  pending <- gets _pending_image_frame_message ;;
  match pending with
  | Some frame =>
      modify (with_pending_image None) ;;
      inherited (call_context (Ctx.add_image_frame_message
        (format (user_image_raw_frame frame))
        (size (user_image_raw_frame frame))
        (image (user_image_raw_frame frame))
        (text frame))) ;;
      ret true
  | None => ret run_llm
  end.

(** [_push_aggregation], lines 125-193. *)
Definition _push_aggregation : M state unit :=
  s <- get ;;
  if negb (truthy_str (_aggregation (base s))
           || is_some (_function_call_result s)
           || is_some (_pending_image_frame_message s))
  then ret tt
  else
    let aggregation := _aggregation (base s) in
    inherited _reset ;;
    try_except
      (run_llm <- commit_turn aggregation ;;
       run_llm <- commit_image run_llm ;;
       when run_llm (inherited (observe UserPushContextFrame)) ;;
       inherited push_frame)
      (fun e => inherited (observe (LoggedException e))).

End WithCollaborators.

Definition messages (s : state) : list Ctx.entry := Aggregator.messages (base s).

Definition observed_since (s s' : state) : list observation :=
  Aggregator.observed_since (base s) (base s').

End GoogleAssistantContextAggregator.

(* ================================================================== *)
(** * GoogleLLMService._process_context *)
(* ================================================================== *)

Module Service.

Inductive frame : Type :=
| LLMFullResponseStartFrame
| TextFrame (text : string)
| LLMFullResponseEndFrame.

(** The calls by which [_process_context] acts on the pipeline. *)
Inductive effect : Type :=
| push_frame (f : frame)
| _create_client (system_instruction : option Std.content)
| start_ttfb_metrics
| stop_ttfb_metrics
| call_function (function_name : string) (arguments : Struct)
| start_llm_usage_metrics (prompt_tokens completion_tokens total_tokens : nat)
| log_refusal
| log_exception (e : exn).

Record usage_metadata : Type := mkUsage {
  prompt_token_count : nat;
  candidates_token_count : nat;
  total_token_count : nat
}.

(** A protobuf message is truthy when one of its fields is set. *)
Definition truthy_usage (u : usage_metadata) : bool :=
  negb ((prompt_token_count u =? 0)%nat
        && (candidates_token_count u =? 0)%nat
        && (total_token_count u =? 0)%nat).

(** A chunk of the response: reading [chunk.parts] can raise (a blocked
    candidate); [candidates] holds the finish reasons. *)
Record chunk : Type := mkChunk {
  chunk_usage_metadata : usage_metadata;
  chunk_parts : outcome (list Glm.Part);
  candidates : list nat
}.

(** One step of the iteration over the response: a chunk, together with
    [response.usage_metadata] as it reads while that chunk is handled, or an
    exception raised by the stream. *)
Inductive stream_step : Type :=
| Yield (c : chunk) (response_usage : usage_metadata)
| StreamRaises (e : exn).

(** What [self._client.generate_content(...)] does: it raises, or returns a
    response with its usage metadata and its stream. *)
Inductive generate_content_result : Type :=
| GenerateRaises (e : exn)
| Streaming (response_usage : usage_metadata) (steps : list stream_step).

(** The service and the local variables of one call of [_process_context];
    [None] is a local variable not yet bound. *)
Record activation : Type := mkActivation {
  _system_instruction : option Std.content;
  prompt_tokens : option nat;
  completion_tokens : option nat;
  total_tokens : option nat;
  effects : list effect
}.

Definition with_system_instruction (s : option Std.content) (a : activation) :=
  mkActivation s (prompt_tokens a) (completion_tokens a) (total_tokens a) (effects a).

Definition with_prompt_tokens (n : option nat) (a : activation) :=
  mkActivation (_system_instruction a) n (completion_tokens a) (total_tokens a) (effects a).

Definition with_completion_tokens (n : option nat) (a : activation) :=
  mkActivation (_system_instruction a) (prompt_tokens a) n (total_tokens a) (effects a).

Definition with_total_tokens (n : option nat) (a : activation) :=
  mkActivation (_system_instruction a) (prompt_tokens a) (completion_tokens a) n (effects a).

Definition perform (e : effect) : M activation unit :=
  modify (fun a =>
    mkActivation (_system_instruction a) (prompt_tokens a) (completion_tokens a)
      (total_tokens a) (effects a ++ [e])).

(** Reading a local variable. *)
Definition local (v : activation -> option nat) : M activation nat :=
  x <- gets v ;;
  match x with
  | Some n => ret n
  | None => raise UnboundLocalError
  end.

(** A service entering [_process_context]: no local is bound. *)
Definition enter (system_instruction : option Std.content) (before : list effect) : activation :=
  mkActivation system_instruction None None None before.

Definition item_eq_dec (a b : Std.content_item) : {a = b} + {a <> b}.
Proof. decide equality; apply string_dec. Defined.

Definition content_eq_dec (a b : Std.content) : {a = b} + {a <> b}.
Proof.
  decide equality; [apply string_dec | apply (list_eq_dec item_eq_dec)].
Defined.

Definition same_instruction (a b : option Std.content) : bool :=
  match a, b with
  | None, None => true
  | Some x, Some y => if content_eq_dec x y then true else false
  | _, _ => false
  end.

(** The body of [for c in chunk.parts], lines 481-490. *)
Definition handle_part (c : Glm.Part) : M activation unit :=
  match Glm.has_text c with
  | Some t => perform (push_frame (TextFrame t))
  | None =>
      match c with
      | Glm.function_call name args => perform (call_function name args)
      | _ => ret tt
      end
  end.

Fixpoint handle_parts (ps : list Glm.Part) : M activation unit :=
  match ps with
  | [] => ret tt
  | c :: rest => handle_part c ;; handle_parts rest
  end.

(** The handler of the inner [try], lines 491-498: [chunk.candidates[0]]
    raises on an empty list. *)
Definition on_chunk_error (c : chunk) (e : exn) : M activation unit :=
  match candidates c with
  | [] => raise IndexError
  | finish_reason :: _ =>
      if (finish_reason =? 3)%nat then perform log_refusal else perform (log_exception e)
  end.

(** The body of the loop over the response, lines 475-498. *)
Definition handle_chunk (c : chunk) (response_usage : usage_metadata) : M activation unit :=
  when (truthy_usage (chunk_usage_metadata c))
    (p <- local prompt_tokens ;;
     modify (with_prompt_tokens (Some (p + prompt_token_count response_usage))) ;;
     k <- local completion_tokens ;;
     modify (with_completion_tokens (Some (k + candidates_token_count response_usage))) ;;
     t <- local total_tokens ;;
     modify (with_total_tokens (Some (t + total_token_count response_usage)))) ;;
  try_except
    (match chunk_parts c with
     | Ok ps => handle_parts ps
     | Raise e => raise e
     end)
    (on_chunk_error c).

Fixpoint drain (steps : list stream_step) : M activation unit :=
  match steps with
  | [] => ret tt
  | StreamRaises e :: _ => raise e
  | Yield c response_usage :: rest => handle_chunk c response_usage ;; drain rest
  end.

(** The body of the outer [try], lines 441-498. *)
Definition generate (client : generate_content_result) (context : Ctx.LLMContext)
  : M activation unit :=
  current <- gets _system_instruction ;;
  when (negb (same_instruction current (Ctx.system_message context)))
    (modify (with_system_instruction (Ctx.system_message context)) ;;
     perform (_create_client (Ctx.system_message context))) ;;
  perform start_ttfb_metrics ;;
  match client with
  | GenerateRaises e => raise e
  | Streaming response_usage steps =>
      perform stop_ttfb_metrics ;;
      modify (with_prompt_tokens (Some (prompt_token_count response_usage))) ;;
      modify (with_completion_tokens (Some (candidates_token_count response_usage))) ;;
      modify (with_total_tokens (Some (total_token_count response_usage))) ;;
      drain steps
  end.

(** The [finally] clause, lines 502-510. *)
Definition report_and_end : M activation unit :=
  p <- local prompt_tokens ;;
  k <- local completion_tokens ;;
  t <- local total_tokens ;;
  perform (start_llm_usage_metrics p k t) ;;
  perform (push_frame LLMFullResponseEndFrame).

(** [_process_context], lines 438-510. *)
Definition _process_context (client : generate_content_result) (context : Ctx.LLMContext)
  : M activation unit :=
  perform (push_frame LLMFullResponseStartFrame) ;;
  try_finally
    (try_except (generate client context) (fun e => perform (log_exception e)))
    report_and_end.

Definition is_usage_report (e : effect) : bool :=
  match e with start_llm_usage_metrics _ _ _ => true | _ => false end.

Definition is_end_marker (e : effect) : bool :=
  match e with push_frame LLMFullResponseEndFrame => true | _ => false end.

Definition usage_reports (l : list effect) : nat := length (filter is_usage_report l).

Definition end_markers (l : list effect) : nat := length (filter is_end_marker l).

(** The locals of an activation are all bound. *)
Definition bound (a : activation) : Prop :=
  exists p k t,
    prompt_tokens a = Some p /\ completion_tokens a = Some k /\ total_tokens a = Some t.

(** Effects that are neither a usage report nor the end-of-turn marker. *)
Definition quiet (l : list effect) : Prop := usage_reports l = 0 /\ end_markers l = 0.

End Service.

(* ================================================================== *)
(** * GoogleLLMContext: the log view and the audio message *)
(* ================================================================== *)

Module GoogleLLMContext.

Import Glm.
Import Ctx.

(** The dict [glm.Content.to_dict] makes of a part: the key of the active
    variant, bytes rendered as base64 text. *)
Inductive part_dict : Type :=
| text_key (s : string)
| inline_data_key (mime_type : string) (data : string)
| function_call_key (name : string) (args : Struct)
| function_response_key (name : string) (response : Struct).

Record content_dict : Type := mkContentDict {
  role_key : string;
  parts_key : list part_dict
}.

Record AudioRawFrame : Type := mkAudioRawFrame {
  audio : bytes;
  sample_rate : nat;
  num_channels : nat
}.

Section WithCollaborators.

Context {collab : Collaborators}.

(** [create_wav_header(sample_rate, num_channels, bits_per_sample,
    data_size)], a method of the base class [OpenAILLMContext], which is
    not part of the module: taken as given. *)
Variable create_wav_header : nat -> nat -> nat -> nat -> bytes.

Definition to_dict_part (p : Part) : part_dict :=
  match p with
  | text s => text_key s
  | inline_data m d => inline_data_key m (b64encode d)
  | function_call n a => function_call_key n a
  | function_response n r => function_response_key n r
  end.

Definition to_dict (c : Content) : content_dict :=
  mkContentDict (role c) (map to_dict_part (parts c)).

(** [part["inline_data"]["data"] = "..."], lines 228-229. *)
Definition redact (p : part_dict) : part_dict :=
  match p with
  | inline_data_key m _ => inline_data_key m "..."
  | _ => p
  end.

(** The body of the loop of [get_messages_for_logging], lines 224-232;
    [glm.Content.to_dict] refuses what is not a [glm.Content]. *)
Definition log_view (e : entry) : outcome content_dict :=
  match e with
  | Dict _ => Raise TypeError
  | Canon c => Ok (mkContentDict (role_key (to_dict c)) (map redact (parts_key (to_dict c))))
  end.

(** [get_messages_for_logging], lines 221-233. *)
Definition get_messages_for_logging : M LLMContext (list content_dict) :=
  msgs <- gets _messages ;;
  lift (traverse log_view msgs).

(** [add_audio_frames_message], lines 249-272. *)
Definition add_audio_frames_message
  (audio_frames : list AudioRawFrame) (caption : option string) : M LLMContext unit :=
  match audio_frames with
  | [] => ret tt
  | first :: _ =>
      let data := concat (map audio audio_frames) in
      let leading :=
        match caption with
        | Some t => if truthy_str t then [text t] else []
        | None => []
        end in
      add_message
        (mkContent "user"
           (leading
              ++ [inline_data "audio/wav"
                    (create_wav_header (sample_rate first) (num_channels first) 16
                       (length data) ++ data)]))
  end.

End WithCollaborators.

End GoogleLLMContext.

(* ================================================================== *)
(** * GoogleLLMService: the generation parameters *)
(* ================================================================== *)

Module GoogleLLMService.

Section Settings.

(** The type of the floating-point settings. *)
Variable float : Type.

(** The four entries of [self._settings] that [_process_context] reads;
    [None] is Python's [None]. *)
Record settings : Type := mkSettings {
  max_tokens : option nat;
  temperature : option float;
  top_k : option nat;
  top_p : option float
}.

Inductive value : Type :=
| int_value (n : nat)
| float_value (x : float).

(** [{k: v for k, v in {...}.items() if v is not None}], lines 450-459. *)
Definition generation_params (s : settings) : list (string * value) :=
  Ctx.drop_none
    [ option_map (fun v => ("temperature", float_value v)) (temperature s);
      option_map (fun v => ("top_p", float_value v)) (top_p s);
      option_map (fun v => ("top_k", int_value v)) (top_k s);
      option_map (fun v => ("max_output_tokens", int_value v)) (max_tokens s) ].

(** Line 461: a [GenerationConfig] built from the parameters when there is
    one, else [None]; the configuration is kept as the keyword arguments it
    is built from. *)
Definition generation_config (s : settings) : option (list (string * value)) :=
  if truthy_list (generation_params s) then Some (generation_params s) else None.

(** [d.get(k)] on the parameters. *)
Fixpoint lookup (k : string) (d : list (string * value)) : option value :=
  match d with
  | [] => None
  | (k', v) :: rest => if k =? k' then Some v else lookup k rest
  end.

End Settings.

End GoogleLLMService.

(* ================================================================== *)
(** * GoogleTTSService *)
(* ================================================================== *)

Module GoogleTTSService.

#[local] Set Warnings "-abstract-large-number".

(** A member of the enumeration [Language], which is declared outside the
    module, is identified by its name. *)
Definition Language : Type := string.

(** [language_map], lines 60-102. *)
Definition language_map : list (Language * string) :=
  [ ("BG", "bg-BG"); ("CA", "ca-ES"); ("ZH", "cmn-CN"); ("ZH_TW", "cmn-TW");
    ("CS", "cs-CZ"); ("DA", "da-DK"); ("NL", "nl-NL"); ("EN", "en-US");
    ("EN_US", "en-US"); ("EN_AU", "en-AU"); ("EN_GB", "en-GB"); ("EN_IN", "en-IN");
    ("ET", "et-EE"); ("FI", "fi-FI"); ("NL_BE", "nl-BE"); ("FR", "fr-FR");
    ("FR_CA", "fr-CA"); ("DE", "de-DE"); ("EL", "el-GR"); ("HI", "hi-IN");
    ("HU", "hu-HU"); ("ID", "id-ID"); ("IT", "it-IT"); ("JA", "ja-JP");
    ("KO", "ko-KR"); ("LV", "lv-LV"); ("LT", "lt-LT"); ("MS", "ms-MY");
    ("NO", "nb-NO"); ("PL", "pl-PL"); ("PT", "pt-PT"); ("PT_BR", "pt-BR");
    ("RO", "ro-RO"); ("RU", "ru-RU"); ("SK", "sk-SK"); ("ES", "es-ES");
    ("SV", "sv-SE"); ("TH", "th-TH"); ("TR", "tr-TR"); ("UK", "uk-UA");
    ("VI", "vi-VN") ].

(** [d.get(k)]. *)
Fixpoint get (k : string) (d : list (string * string)) : option string :=
  match d with
  | [] => None
  | (k', v) :: rest => if k =? k' then Some v else get k rest
  end.

(** [language_to_google_language], lines 59-103. *)
Definition language_to_google_language (language : Language) : option string :=
  get language language_map.

(** [language_to_service_language], lines 603-604. *)
Definition language_to_service_language (language : Language) : option string :=
  language_to_google_language language.

(** [InputParams], lines 544-551. *)
Record InputParams : Type := mkInputParams {
  params_pitch : option string;
  params_rate : option string;
  params_volume : option string;
  params_emphasis : option string;
  params_language : option Language;
  params_gender : option string;
  params_google_style : option string
}.

(** [self._settings], lines 565-576. *)
Record settings : Type := mkSettings {
  sample_rate : nat;
  pitch : option string;
  rate : option string;
  volume : option string;
  emphasis : option string;
  language : option string;
  gender : option string;
  google_style : option string
}.

(** The service: its settings and the voice the base class keeps. *)
Record state : Type := mkState {
  _settings : settings;
  _voice_id : string
}.

(** The settings [__init__] stores, lines 565-576. *)
Definition init (rate_hz : nat) (params : InputParams) : settings :=
  mkSettings rate_hz (params_pitch params) (params_rate params) (params_volume params)
    (params_emphasis params)
    (match params_language params with
     | Some l => language_to_service_language l
     | None => Some "en-US"
     end)
    (params_gender params) (params_google_style params).

(** [if x:] on an optional string. *)
Definition truthy (o : option string) : bool :=
  match o with
  | Some s => truthy_str s
  | None => false
  end.

(** [f"{x}"] of an optional string. *)
Definition format (o : option string) : string :=
  match o with
  | Some s => s
  | None => "None"
  end.

(** [f"{key}='{x}'"] appended when [x] is truthy. *)
Definition attr (key : string) (o : option string) : list string :=
  if truthy o then [(key ++ "='" ++ format o ++ "'")%string] else [].

(** [prosody_attrs], lines 620-626. *)
Definition prosody_attrs (s : settings) : list string :=
  (attr "pitch" (pitch s) ++ attr "rate" (rate s) ++ attr "volume" (volume s))%list.

(** [_construct_ssml], lines 606-650. *)
Definition _construct_ssml (self : state) (text : string) : string :=
  let s := _settings self in
  let ssml := "<speak>" in
  let voice_attrs := [("name='" ++ _voice_id self ++ "'")%string] in
  let voice_attrs :=
    (voice_attrs ++ [("language='" ++ format (language s) ++ "'")%string])%list in
  let voice_attrs := (voice_attrs ++ attr "gender" (gender s))%list in
  let ssml := (ssml ++ ("<voice " ++ String.concat " " voice_attrs ++ ">"))%string in
  let ssml :=
    if truthy_list (prosody_attrs s)
    then (ssml ++ ("<prosody " ++ String.concat " " (prosody_attrs s) ++ ">"))%string
    else ssml in
  let ssml :=
    if truthy (emphasis s)
    then (ssml ++ ("<emphasis level='" ++ format (emphasis s) ++ "'>"))%string
    else ssml in
  let ssml :=
    if truthy (google_style s)
    then (ssml ++ ("<google:style name='" ++ format (google_style s) ++ "'>"))%string
    else ssml in
  let ssml := (ssml ++ text)%string in
  let ssml :=
    if truthy (google_style s) then (ssml ++ "</google:style>")%string else ssml in
  let ssml := if truthy (emphasis s) then (ssml ++ "</emphasis>")%string else ssml in
  let ssml :=
    if truthy_list (prosody_attrs s) then (ssml ++ "</prosody>")%string else ssml in
  (ssml ++ "</voice></speak>")%string.

Inductive frame : Type :=
| TTSStartedFrame
| TTSAudioRawFrame (audio : bytes) (sample_rate : nat) (num_channels : nat)
| TTSStoppedFrame
| ErrorFrame (error : string).

(** What [run_tts] does, in order: the frames it yields and the calls it
    makes. *)
Inductive effect : Type :=
| yield (f : frame)
| start_ttfb_metrics
| stop_ttfb_metrics
| synthesize_speech (ssml : string) (language_code : option string) (name : string)
    (sample_rate_hertz : nat)
| start_tts_usage_metrics (text : string)
| log_exception (e : exn).

(** What [self._client.synthesize_speech] does: it raises, or returns a
    response with its [audio_content]. *)
Inductive synthesis : Type :=
| SynthesisRaises (e : exn)
| Synthesized (audio_content : bytes).

Definition perform (e : effect) : M (list effect) unit :=
  modify (fun l => l ++ [e]).

(** [range(0, stop, step)]. *)
Definition range_step (stop step : nat) : list nat :=
  map (fun k => k * step) (seq 0 ((stop + step - 1) / step)).

(** [b[i:j]] for [i <= j]. *)
Definition slice (b : bytes) (i j : nat) : bytes := firstn (j - i) (skipn i b).

Definition chunk_size : nat := 8192.

(** The loop over the audio, lines 683-690; an empty chunk breaks it. *)
Fixpoint send_chunks (self : state) (audio_content : bytes) (starts : list nat)
  : M (list effect) unit :=
  match starts with
  | [] => ret tt
  | i :: rest =>
      match slice audio_content i (i + chunk_size) with
      | [] => ret tt
      | b :: chunk =>
          perform stop_ttfb_metrics ;;
          perform (yield (TTSAudioRawFrame (b :: chunk) (sample_rate (_settings self)) 1)) ;;
          send_chunks self audio_content rest
      end
  end.

Section RunTts.

(** [str(e)] of an exception. *)
Variable str : exn -> string.

(** The body of the [try], lines 656-692. *)
Definition synthesize (self : state) (client : synthesis) (text : string)
  : M (list effect) unit :=
  perform start_ttfb_metrics ;;
  perform (synthesize_speech (_construct_ssml self text) (language (_settings self))
             (_voice_id self) (sample_rate (_settings self))) ;;
  match client with
  | SynthesisRaises e => raise e
  | Synthesized content =>
      perform (start_tts_usage_metrics text) ;;
      perform (yield TTSStartedFrame) ;;
      let audio_content := skipn 44 content in
      send_chunks self audio_content (range_step (length audio_content) chunk_size) ;;
      perform (yield TTSStoppedFrame)
  end.

(** [run_tts], lines 652-699, run to the end of the generator. *)
Definition run_tts (self : state) (client : synthesis) (text : string)
  : M (list effect) unit :=
  try_finally
    (try_except (synthesize self client text)
       (fun e =>
          perform (log_exception e) ;;
          perform (yield (ErrorFrame ("TTS generation error: " ++ str e)%string))))
    (perform (yield TTSStoppedFrame)).

End RunTts.

(** The frames among effects, in order. *)
Fixpoint frames (l : list effect) : list frame :=
  match l with
  | [] => []
  | yield f :: rest => f :: frames rest
  | _ :: rest => frames rest
  end.

(** The audio of the audio frames, in order. *)
Fixpoint chunks (l : list frame) : list bytes :=
  match l with
  | [] => []
  | TTSAudioRawFrame a _ _ :: rest => a :: chunks rest
  | _ :: rest => chunks rest
  end.

End GoogleTTSService.

(* ================================================================== *)
(** * Vocabulary of the properties *)
(* ================================================================== *)

(** ** Collaborator laws *)

(** Base64 decoding inverts encoding, and the encoding uses no comma. *)
Class Base64Laws (collab : Collaborators) : Prop := {
  b64decode_b64encode : forall d : bytes, b64decode (b64encode d) = Some d;
  b64encode_comma_free : forall d : bytes, comma_free (b64encode d) = true
}.

(** A mapping is JSON-representable when [json.loads] gives it back from
    its [json.dumps] (which is never the empty string). *)
Definition json_representable {collab : Collaborators} (v : Struct) : Prop :=
  json_loads (json_dumps v) = Some v /\ json_dumps v <> "".

(** ** Restructuring *)

Definition has_parts (e : Ctx.entry) : Prop :=
  match e with
  | Ctx.Canon c => Glm.parts c <> []
  | Ctx.Dict _ => True
  end.

Definition canonical_with_parts (e : Ctx.entry) : Prop :=
  match e with
  | Ctx.Canon c => Glm.parts c <> []
  | Ctx.Dict _ => False
  end.

(** What the translation pass of restructuring yields for the messages
    [ms]: the canonical messages (or the exception that stopped the pass)
    and the system message extracted. *)
Definition restructuring_yields {collab : Collaborators}
  (ms : list Std.message) (ctx : Ctx.LLMContext)
  : outcome (list Glm.Content) * option Std.content :=
  match for_each Ctx.from_standard_message (map Ctx.Dict ms)
          (Ctx.with_system_message None (Ctx.with_messages (map Ctx.Dict ms) ctx)) with
  | (Ok translated, ctx1) => (Ok (Ctx.drop_none translated), Ctx.system_message ctx1)
  | (Raise e, ctx1) => (Raise e, Ctx.system_message ctx1)
  end.

Definition user_text_message (s : string) : Glm.Content :=
  Glm.mkContent "user" [Glm.text s].

(** The system-only edge case as the specification words it: a system
    message and zero canonical messages give exactly one user message
    carrying the system content. *)
Definition system_only_as_stated {collab : Collaborators}
  (ms : list Std.message) (ctx : Ctx.LLMContext) : Prop :=
  forall sys,
    restructuring_yields ms ctx = (Ok [], Some sys) ->
    let ctx' := state_after (Ctx.set_messages ms) ctx in
    exists s, sys = Std.content_str s
              /\ Ctx._messages ctx' = [Ctx.Canon (user_text_message s)]
              /\ Ctx.system_message ctx' = Some sys.

(** ** The round trip *)

(** [c] survives [to_standard_messages] followed by
    [from_standard_message]. *)
Definition round_trips {collab : Collaborators} (c : Glm.Content) : Prop :=
  exists m,
    Ctx.to_standard_messages c = Ok [m]
    /\ forall ctx, Ctx.from_standard_message (Ctx.Dict m) ctx = (Ok (Some c), ctx).

(** The round-trip law as the specification words it, for the messages
    [ms] given to [set_messages]. *)
Definition round_trip_as_stated {collab : Collaborators}
  (ms : list Std.message) (ctx : Ctx.LLMContext) : Prop :=
  Forall (fun e => match e with
                   | Ctx.Canon c => round_trips c
                   | Ctx.Dict _ => True
                   end)
    (Ctx._messages (state_after (Ctx.set_messages ms) ctx)).

Definition is_call (p : Glm.Part) : bool :=
  match p with Glm.function_call _ _ => true | _ => false end.

Definition texts_nonempty (c : Glm.Content) : Prop :=
  Forall (fun p => match p with Glm.text s => s <> "" | _ => True end) (Glm.parts c).

Definition at_most_one_call (c : Glm.Content) : Prop :=
  length (filter is_call (Glm.parts c)) <= 1.

Definition representable {collab : Collaborators} (c : Glm.Content) : Prop :=
  Forall (fun p => match p with
                   | Glm.function_call _ a => json_representable a
                   | Glm.function_response _ r => json_representable r
                   | _ => True
                   end) (Glm.parts c).

(** The tool-call ids of a standard message are the function names of the
    canonical message it was made from. *)
Definition ids_from_names (c : Glm.Content) (m : Std.message) : Prop :=
  (forall tcs tc, Std.tool_calls m = Some tcs -> In tc tcs ->
                  Std.id tc = Std.name (Std.function tc))
  /\ (forall n r, In (Glm.function_response n r) (Glm.parts c) ->
                  Std.tool_call_id m = Some n).

Definition text_or_jpeg (p : Glm.Part) : Prop :=
  match p with
  | Glm.text _ => True
  | Glm.inline_data mime _ => mime = "image/jpeg"
  | _ => False
  end.

(** The content item [to_standard_messages] makes of a text or of inline
    data. *)
Definition item_of {collab : Collaborators} (p : Glm.Part) : Std.content_item :=
  match p with
  | Glm.text s => Std.item_text s
  | Glm.inline_data mime d =>
      Std.item_image_url ("data:" ++ mime ++ ";base64," ++ b64encode d)
  | _ => Std.item_other ""
  end.

(** The three shapes [from_standard_message] produces. *)
Inductive translated_shape : Glm.Content -> Prop :=
| shape_calls (role : string) (ps : list Glm.Part) :
    role <> "assistant" -> role <> "system" -> ps <> [] ->
    Forall (fun p => is_call p = true) ps ->
    translated_shape (Glm.mkContent role ps)
| shape_response (r : Struct) :
    translated_shape (Glm.mkContent "model" [Glm.function_response "tool_call_result" r])
| shape_content (role : string) (ps : list Glm.Part) :
    role <> "assistant" -> role <> "system" -> role <> "tool" ->
    Forall text_or_jpeg ps ->
    translated_shape (Glm.mkContent role ps).

(** ** Flushes *)

Definition is_signal (o : observation) : bool :=
  match what o with UserPushContextFrame => true | _ => false end.

Definition is_context_frame (o : observation) : bool :=
  match what o with PushFrame _ => true | _ => false end.

(** The number of re-invocation signals among observations. *)
Definition signals (obs : list observation) : nat := length (filter is_signal obs).

(** An append or a downstream emission made with the buffer already
    empty; other actions are not constrained. *)
Definition after_clear (o : observation) : bool :=
  match what o with
  | Appended _ | PushFrame _ => buffer_then o =? ""
  | _ => true
  end.

(** The ordering rule as the specification words it, for a flush of the
    user aggregator from state [a]. *)
Definition user_clears_first (a : Aggregator.LLMResponseAggregator) : Prop :=
  forallb after_clear
    (Aggregator.observed_since a
       (state_after GoogleUserContextAggregator._push_aggregation a)) = true.

Definition call_message (f : GoogleAssistantContextAggregator.FunctionCallResultFrame)
  : Glm.Content :=
  Glm.mkContent "model"
    [Glm.function_call (GoogleAssistantContextAggregator.function_name f)
       (GoogleAssistantContextAggregator.arguments f)].

Definition response_message (f : GoogleAssistantContextAggregator.FunctionCallResultFrame)
  : Glm.Content :=
  Glm.mkContent "user"
    [Glm.function_response (GoogleAssistantContextAggregator.function_name f)
       (GoogleAssistantContextAggregator.response_of
          (GoogleAssistantContextAggregator.result f))].

Definition image_message (f : GoogleAssistantContextAggregator.OpenAIImageMessageFrame)
  (jpeg : bytes) : Glm.Content :=
  Glm.mkContent "user"
    (match GoogleAssistantContextAggregator.text f with
     | Some t => if truthy_str t then [Glm.text t] else []
     | None => []
     end ++ [Glm.inline_data "image/jpeg" jpeg]).

Definition encoded {collab : Collaborators}
  (f : GoogleAssistantContextAggregator.OpenAIImageMessageFrame) : option bytes :=
  jpeg_encode
    (GoogleAssistantContextAggregator.format
       (GoogleAssistantContextAggregator.user_image_raw_frame f))
    (GoogleAssistantContextAggregator.size
       (GoogleAssistantContextAggregator.user_image_raw_frame f))
    (GoogleAssistantContextAggregator.image
       (GoogleAssistantContextAggregator.user_image_raw_frame f)).

Definition has_function_part (e : Ctx.entry) : bool :=
  match e with
  | Ctx.Canon c =>
      existsb (fun p => match p with
                        | Glm.function_call _ _ | Glm.function_response _ _ => true
                        | _ => false
                        end) (Glm.parts c)
  | Ctx.Dict _ => false
  end.

(** The entries a flush appended. *)
Definition appended (s s' : GoogleAssistantContextAggregator.state) : list Ctx.entry :=
  skipn (length (GoogleAssistantContextAggregator.messages s))
    (GoogleAssistantContextAggregator.messages s').

(** The attachment rule as the specification words it, for a flush from
    state [s]: the attachment is appended and one signal is sent. *)
Definition attachment_as_stated {collab : Collaborators}
  (s : GoogleAssistantContextAggregator.state) : Prop :=
  forall img,
    GoogleAssistantContextAggregator._pending_image_frame_message s = Some img ->
    let s' := state_after GoogleAssistantContextAggregator._push_aggregation s in
    (exists jpeg earlier,
        GoogleAssistantContextAggregator.messages s'
        = GoogleAssistantContextAggregator.messages s
            ++ earlier ++ [Ctx.Canon (image_message img jpeg)])
    /\ signals (GoogleAssistantContextAggregator.observed_since s s') = 1.

(** The function-result rule as the specification words it, for a flush
    from state [s]: two messages, and a signal exactly when no call is in
    flight. *)
Definition function_result_as_stated {collab : Collaborators}
  (s : GoogleAssistantContextAggregator.state) : Prop :=
  forall frame,
    GoogleAssistantContextAggregator._function_call_result s = Some frame ->
    let s' := state_after GoogleAssistantContextAggregator._push_aggregation s in
    GoogleAssistantContextAggregator.messages s'
      = GoogleAssistantContextAggregator.messages s
          ++ [Ctx.Canon (call_message frame); Ctx.Canon (response_message frame)]
    /\ (GoogleAssistantContextAggregator._function_calls_in_progress s = 0 ->
        signals (GoogleAssistantContextAggregator.observed_since s s') = 1)
    /\ (0 < GoogleAssistantContextAggregator._function_calls_in_progress s ->
        signals (GoogleAssistantContextAggregator.observed_since s s') = 0).

(** The falsy-result rule as stated, for a flush from state [s]: nothing
    about the function is appended, no signal, slot cleared, text dropped. *)
Definition falsy_result_as_stated {collab : Collaborators}
  (s : GoogleAssistantContextAggregator.state) : Prop :=
  forall frame,
    GoogleAssistantContextAggregator._function_call_result s = Some frame ->
    GoogleAssistantContextAggregator.truthy_payload
      (GoogleAssistantContextAggregator.result frame) = false ->
    let s' := state_after GoogleAssistantContextAggregator._push_aggregation s in
    existsb has_function_part (appended s s') = false
    /\ signals (GoogleAssistantContextAggregator.observed_since s s') = 0
    /\ GoogleAssistantContextAggregator._function_call_result s' = None
    /\ ~ In (Ctx.Canon (Glm.mkContent "model"
               [Glm.text (Aggregator._aggregation
                            (GoogleAssistantContextAggregator.base s))]))
            (appended s s').

(** ** Further vocabulary: the context *)

(** A message with every inline payload emptied. *)
Definition without_payloads (c : Glm.Content) : Glm.Content :=
  Glm.mkContent (Glm.role c)
    (map (fun p => match p with
                   | Glm.inline_data m _ => Glm.inline_data m []
                   | _ => p
                   end) (Glm.parts c)).

Definition redacted (p : GoogleLLMContext.part_dict) : Prop :=
  match p with
  | GoogleLLMContext.inline_data_key _ d => d = "..."
  | _ => True
  end.

(** The content of the last system entry of [ms], or [acc] when there is
    none; an absent content reads as the empty list. *)
Fixpoint last_system (ms : list Std.message) (acc : option Std.content)
  : option Std.content :=
  match ms with
  | [] => acc
  | m :: rest =>
      last_system rest
        (if Std.role m =? "system"
         then Some (match Std.content_key m with
                    | Some c => c
                    | None => Std.content_list []
                    end)
         else acc)
  end.

Definition call_name (p : Glm.Part) : option string :=
  match p with
  | Glm.function_call n _ => Some n
  | _ => None
  end.

(** A part that [to_standard_messages] appends to the content list. *)
Definition is_visible (p : Glm.Part) : bool :=
  match Glm.has_text p, Glm.has_inline_data p with
  | None, None => false
  | _, _ => true
  end.

(** Some visible part comes after a function response ([seen] tells
    whether a response was met already). *)
Fixpoint visible_after_response (seen : bool) (ps : list Glm.Part) : bool :=
  match ps with
  | [] => false
  | p :: rest =>
      if is_visible p then seen || visible_after_response seen rest
      else
        match p with
        | Glm.function_response _ _ => visible_after_response true rest
        | _ => visible_after_response seen rest
        end
  end.

(** The last function call among parts. *)
Fixpoint last_call (ps : list Glm.Part) (acc : option (string * Struct))
  : option (string * Struct) :=
  match ps with
  | [] => acc
  | Glm.function_call n a :: rest => last_call rest (Some (n, a))
  | _ :: rest => last_call rest acc
  end.

Definition is_response (p : Glm.Part) : bool :=
  match p with
  | Glm.function_response _ _ => true
  | _ => false
  end.

(** Function calls and responses carry a name: the parts for which the
    truth test of a variant is the test of its being the active one. *)
Definition named (p : Glm.Part) : Prop :=
  match p with
  | Glm.function_call n _ | Glm.function_response n _ => truthy_str n = true
  | _ => True
  end.

(** The [tool_calls] entry made of one function call. *)
Definition calls_of {collab : Collaborators} (o : option (string * Struct))
  : option (list Std.tool_call) :=
  match o with
  | Some (n, a) => Some [Std.mkToolCall n "function" (Std.mkFunction n (json_dumps a))]
  | None => None
  end.

(** ** Further vocabulary: the aggregators *)

(** Nothing to flush: the test of lines 126-129. *)
Definition idle (s : GoogleAssistantContextAggregator.state) : bool :=
  negb (truthy_str (Aggregator._aggregation (GoogleAssistantContextAggregator.base s))
        || GoogleAssistantContextAggregator.is_some
             (GoogleAssistantContextAggregator._function_call_result s)
        || GoogleAssistantContextAggregator.is_some
             (GoogleAssistantContextAggregator._pending_image_frame_message s)).

(** An attachment is pending and its frame cannot be encoded. *)
Definition attachment_fails {collab : Collaborators}
  (s : GoogleAssistantContextAggregator.state) : bool :=
  match GoogleAssistantContextAggregator._pending_image_frame_message s with
  | Some f => match encoded f with Some _ => false | None => true end
  | None => false
  end.

Definition is_canonical (e : Ctx.entry) : bool :=
  match e with Ctx.Canon _ => true | Ctx.Dict _ => false end.

(** ** Further vocabulary: the service *)

(** A chunk at which the loop over the response ends: reading its parts
    raises and it has no candidate to tell why. *)
Definition stops (c : Service.chunk) : bool :=
  match Service.chunk_parts c, Service.candidates c with
  | Raise _, [] => true
  | _, _ => false
  end.

(** The chunks the loop gets to, each with the response's usage metadata
    as it read then: those up to the first exception of the stream or the
    first chunk at which the loop ends, that chunk included. *)
Fixpoint handled (steps : list Service.stream_step)
  : list (Service.chunk * Service.usage_metadata) :=
  match steps with
  | Service.Yield c u :: rest => (c, u) :: (if stops c then [] else handled rest)
  | _ => []
  end.

(** The readings of the response's usage metadata taken at the handled
    chunks that carry usage metadata of their own. *)
Definition readings (steps : list Service.stream_step) : list Service.usage_metadata :=
  map snd
    (filter (fun cu => Service.truthy_usage (Service.chunk_usage_metadata (fst cu)))
       (handled steps)).

Definition parts_of (c : Service.chunk) : list Glm.Part :=
  match Service.chunk_parts c with
  | Ok ps => ps
  | Raise _ => []
  end.

Definition parts_handled (steps : list Service.stream_step) : list Glm.Part :=
  flat_map (fun cu => parts_of (fst cu)) (handled steps).

(** The texts of the text frames, and the names of the functions called,
    among effects. *)
Definition spoken (l : list Service.effect) : list string :=
  flat_map (fun e => match e with
                     | Service.push_frame (Service.TextFrame t) => [t]
                     | _ => []
                     end) l.

Definition called (l : list Service.effect) : list string :=
  flat_map (fun e => match e with
                     | Service.call_function n _ => [n]
                     | _ => []
                     end) l.

(** The non-empty texts, and the names of the function calls, among parts. *)
Definition texts_in (ps : list Glm.Part) : list string :=
  flat_map (fun p => match Glm.has_text p with Some t => [t] | None => [] end) ps.

Definition calls_in (ps : list Glm.Part) : list string :=
  flat_map (fun p => match call_name p with Some n => [n] | None => [] end) ps.

(** ** Further vocabulary: speech synthesis *)

(** An element of a markup text: its tag and its attributes as written,
    leading space included. *)
Record element : Type := mkElement {
  tag : string;
  attributes : string
}.

(** [inner] enclosed in the elements [es], the first one outermost. *)
Fixpoint wrap (es : list element) (inner : string) : string :=
  match es with
  | [] => inner
  | e :: rest =>
      ("<" ++ tag e ++ attributes e ++ ">"
         ++ wrap rest inner ++ "</" ++ tag e ++ ">")%string
  end.

(** At most [n] pieces of [GoogleTTSService.chunk_size] bytes cut from the
    front of [b], the last one possibly shorter. *)
Fixpoint cut (n : nat) (b : bytes) : list bytes :=
  match n with
  | 0 => []
  | S n' =>
      match firstn GoogleTTSService.chunk_size b with
      | [] => []
      | x :: c => (x :: c) :: cut n' (skipn GoogleTTSService.chunk_size b)
      end
  end.

(** What sending one piece of audio consists of. *)
Definition sent (sample_rate : nat) (c : bytes) : list GoogleTTSService.effect :=
  [ GoogleTTSService.stop_ttfb_metrics;
    GoogleTTSService.yield (GoogleTTSService.TTSAudioRawFrame c sample_rate 1) ].

(** An entry that [to_standard_messages] turns into one standard
    message. *)
Definition exportable {collab : Collaborators} (e : Ctx.entry) : Prop :=
  match e with
  | Ctx.Canon c => exists m, Ctx.to_standard_messages c = Ok [m]
  | Ctx.Dict _ => False
  end.

(* ================================================================== *)
(** * A concrete set of collaborators, and concrete inputs *)
(* ================================================================== *)

Module Demo.

(** A two-characters-per-byte encoding standing for base64: it is
    invertible and uses the characters 0-9 and a-f only. *)
Definition alphabet : string := "0123456789abcdef".

Definition hex_digit (n : nat) : ascii :=
  match String.get n alphabet with
  | Some c => c
  | None => "0"%char
  end.

Definition hex_value (c : ascii) : option nat :=
  String.index 0 (String c EmptyString) alphabet.

Definition encode_byte (b : byte) : string :=
  String (hex_digit (Byte.to_nat b / 16))
    (String (hex_digit (Byte.to_nat b mod 16)) EmptyString).

Definition decode_byte (hi lo : ascii) : option byte :=
  match hex_value hi, hex_value lo with
  | Some h, Some l => Byte.of_nat (16 * h + l)
  | _, _ => None
  end.

Fixpoint encode (d : bytes) : string :=
  match d with
  | [] => EmptyString
  | b :: rest => encode_byte b ++ encode rest
  end.

Fixpoint decode (s : string) : option bytes :=
  match s with
  | EmptyString => Some []
  | String hi (String lo rest) =>
      match decode_byte hi lo, decode rest with
      | Some b, Some d => Some (b :: d)
      | _, _ => None
      end
  | String _ EmptyString => None
  end.

(** Bytes per pixel of the raw image modes; other modes are refused. *)
Definition bands (mode : string) : option nat :=
  if mode =? "L" then Some 1
  else if mode =? "RGB" then Some 3
  else if mode =? "RGBA" then Some 4
  else None.

(** An encoder that, like [Image.frombytes], refuses a buffer whose length
    does not fit the mode and size; the bytes returned stand for the JPEG. *)
Definition encode_image (mode : string) (size : nat * nat) (image : bytes) : option bytes :=
  match bands mode with
  | Some n => if (length image =? fst size * snd size * n)%nat then Some image else None
  | None => None
  end.

(** The only document this parser knows is the empty object. *)
Definition loads (s : string) : option Struct :=
  if s =? "{}" then Some [] else None.

Definition dumps (v : Struct) : string := "{}".

Definition collaborators : Collaborators := {|
  json_loads := loads;
  json_dumps := dumps;
  b64encode := encode;
  b64decode := decode;
  jpeg_encode := encode_image
|}.

Definition empty_context : Ctx.LLMContext :=
  Ctx.mkContext Ctx.GoogleLLMContext [] None.

Definition system_message (c : Std.content) : Std.message :=
  Std.mkMessage "system" (Some c) None None.

Definition user_message (s : string) : Std.message :=
  Std.mkMessage "user" (Some (Std.content_str s)) None None.

Definition call (name : string) : Std.tool_call :=
  Std.mkToolCall ("call_" ++ name) "function" (Std.mkFunction name "{}").

(** An assistant message with one tool call, a tool result, and a user
    message with a text and an inline image. *)
Definition conversation : list Std.message :=
  [ system_message (Std.content_str "Be terse");
    user_message "hi";
    Std.mkMessage "assistant" None (Some [call "get_weather"]) None;
    Std.mkMessage "tool" (Some (Std.content_str "{}")) None (Some "call_get_weather");
    Std.mkMessage "user"
      (Some (Std.content_list
               [Std.item_text "look"; Std.item_image_url "data:image/png;base64,ff00"]))
      None None ].

Definition idle_user (ctx : Ctx.LLMContext) : Aggregator.LLMResponseAggregator :=
  Aggregator.mkAggregator "" ctx false [].

Definition assistant
  (buffer : string)
  (pending : option GoogleAssistantContextAggregator.FunctionCallResultFrame)
  (in_progress : nat)
  (attachment : option GoogleAssistantContextAggregator.OpenAIImageMessageFrame)
  : GoogleAssistantContextAggregator.state :=
  GoogleAssistantContextAggregator.mkState
    (Aggregator.mkAggregator buffer empty_context true [])
    pending in_progress attachment.

Definition weather_result (p : GoogleAssistantContextAggregator.payload)
  : GoogleAssistantContextAggregator.FunctionCallResultFrame :=
  GoogleAssistantContextAggregator.mkFunctionCallResultFrame
    "get_weather" "call_1" [("city", JString "Paris")] p.

(** One grey pixel, and the same frame with its pixel missing. *)
Definition pixel : GoogleAssistantContextAggregator.OpenAIImageMessageFrame :=
  GoogleAssistantContextAggregator.mkOpenAIImageMessageFrame
    (GoogleAssistantContextAggregator.mkUserImageRawFrame "L" (1, 1) [Byte.x80])
    None.

Definition truncated : GoogleAssistantContextAggregator.OpenAIImageMessageFrame :=
  GoogleAssistantContextAggregator.mkOpenAIImageMessageFrame
    (GoogleAssistantContextAggregator.mkUserImageRawFrame "L" (1, 1) [])
    None.

End Demo.

(* ================================================================== *)
(** * Properties *)
(* ================================================================== *)

(** ** Lists and observations *)

Lemma skipn_length_app {A : Type} (l extra : list A) :
  skipn (length l) (l ++ extra) = extra.
Proof.
  induction l as [| x l IH]; [reflexivity | exact IH].
Qed.

Lemma skipn_length_self {A : Type} (l : list A) : skipn (length l) l = [].
Proof.
  rewrite <- (app_nil_r l) at 2. apply skipn_length_app.
Qed.

Lemma filter_length_app {A : Type} (f : A -> bool) (l extra : list A) :
  length (filter f (l ++ extra)) = length (filter f l) + length (filter f extra).
Proof.
  rewrite filter_app, length_app. reflexivity.
Qed.

(** ** The streaming loop *)

Section Streaming.

Import Service.

Lemma quiet_app (l1 l2 : list effect) : quiet l1 -> quiet l2 -> quiet (l1 ++ l2).
Proof.
  unfold quiet, usage_reports, end_markers.
  intros [H1 H2] [H3 H4]. rewrite !filter_length_app. lia.
Qed.

Lemma handle_parts_quiet (ps : list Glm.Part) (a : activation) :
  exists extra,
    handle_parts ps a
    = (Ok tt, mkActivation (_system_instruction a) (prompt_tokens a)
                (completion_tokens a) (total_tokens a) (effects a ++ extra))
    /\ quiet extra.
Proof.
  revert a. induction ps as [| c rest IH]; intros a.
  - exists []. rewrite app_nil_r. destruct a; split; [reflexivity | split; reflexivity].
  - assert (Hc : exists one,
               handle_part c a
               = (Ok tt, mkActivation (_system_instruction a) (prompt_tokens a)
                           (completion_tokens a) (total_tokens a) (effects a ++ one))
               /\ quiet one).
    { unfold handle_part. destruct (Glm.has_text c) as [t |].
      - exists [push_frame (TextFrame t)]. split; [reflexivity | split; reflexivity].
      - destruct c;
          try (exists []; rewrite app_nil_r; destruct a;
               split; [reflexivity | split; reflexivity]).
        exists [call_function name args]. split; [reflexivity | split; reflexivity]. }
    destruct Hc as (one & Hone & Hq).
    cbn [handle_parts]. unfold bind at 1. rewrite Hone.
    destruct (IH (mkActivation (_system_instruction a) (prompt_tokens a)
                    (completion_tokens a) (total_tokens a) (effects a ++ one)))
      as (more & Hmore & Hq').
    exists (one ++ more). rewrite Hmore. cbn. rewrite app_assoc.
    split; [reflexivity | apply quiet_app; assumption].
Qed.

(** One chunk: the locals stay bound and nothing is reported, whether the
    chunk is handled or its handler raises. *)
Lemma handle_chunk_quiet (c : chunk) (u : usage_metadata) (a : activation) :
  bound a ->
  exists r a' extra,
    handle_chunk c u a = (r, a') /\ bound a'
    /\ effects a' = effects a ++ extra /\ quiet extra.
Proof.
  intros (p & k & t & Hp & Hk & Ht).
  unfold handle_chunk.
  set (counted := when (truthy_usage (chunk_usage_metadata c)) _).
  assert (Hcount : exists a1, counted a = (Ok tt, a1) /\ bound a1
                              /\ effects a1 = effects a).
  { subst counted. unfold when. destruct (truthy_usage (chunk_usage_metadata c)).
    - unfold bind, local, gets, modify, ret. cbn. rewrite Hp. cbn. rewrite Hk. cbn.
      rewrite Ht. cbn. eexists. split; [reflexivity |].
      split; [| reflexivity]. unfold bound. cbn. eauto 7.
    - exists a. split; [reflexivity |]. split; [| reflexivity].
      unfold bound. eauto 7. }
  destruct Hcount as (a1 & Hrun & Hb & He).
  unfold bind at 1. rewrite Hrun. unfold try_except.
  destruct (chunk_parts c) as [ps | e].
  - destruct (handle_parts_quiet ps a1) as (extra & Hps & Hq).
    rewrite Hps. eexists _, _, extra. split; [reflexivity |].
    destruct Hb as (p1 & k1 & t1 & H1 & H2 & H3).
    split; [unfold bound; cbn; eauto 7 |]. cbn. rewrite He. split; [reflexivity | exact Hq].
  - unfold raise, on_chunk_error.
    destruct (candidates c) as [| reason rest].
    + eexists _, _, []. split; [reflexivity |]. split; [exact Hb |].
      rewrite app_nil_r. split; [exact He | split; reflexivity].
    + destruct (reason =? 3)%nat.
      * eexists _, _, [log_refusal]. split; [reflexivity |].
        destruct Hb as (p1 & k1 & t1 & H1 & H2 & H3).
        split; [unfold bound; cbn; eauto 7 |]. cbn. rewrite He.
        split; [reflexivity | split; reflexivity].
      * eexists _, _, [log_exception e]. split; [reflexivity |].
        destruct Hb as (p1 & k1 & t1 & H1 & H2 & H3).
        split; [unfold bound; cbn; eauto 7 |]. cbn. rewrite He.
        split; [reflexivity | split; reflexivity].
Qed.

Lemma drain_quiet (steps : list stream_step) (a : activation) :
  bound a ->
  exists r a' extra,
    drain steps a = (r, a') /\ bound a'
    /\ effects a' = effects a ++ extra /\ quiet extra.
Proof.
  revert a. induction steps as [| step rest IH]; intros a Hb.
  - exists (Ok tt), a, []. rewrite app_nil_r.
    repeat split; try reflexivity; exact Hb.
  - destruct step as [c u | e].
    + cbn [drain]. unfold bind at 1.
      destruct (handle_chunk_quiet c u a Hb) as (r1 & a1 & x1 & H1 & Hb1 & He1 & Hq1).
      rewrite H1. destruct r1 as [[] | e1].
      * destruct (IH a1 Hb1) as (r2 & a2 & x2 & H2 & Hb2 & He2 & Hq2).
        exists r2, a2, (x1 ++ x2). split; [exact H2 |]. split; [exact Hb2 |].
        rewrite He2, He1, app_assoc. split; [reflexivity | apply quiet_app; assumption].
      * exists (Raise e1), a1, x1. repeat split; try assumption; apply Hq1.
    + exists (Raise e), a, []. rewrite app_nil_r.
      repeat split; try reflexivity; exact Hb.
Qed.

(** With a response in hand, [generate] binds the three locals and drains
    the stream. *)
Lemma generate_streaming
  (u : usage_metadata) (steps : list stream_step) (context : Ctx.LLMContext)
  (si : option Std.content) (l : list effect) :
  let same := same_instruction si (Ctx.system_message context) in
  generate (Streaming u steps) context (mkActivation si None None None l)
  = drain steps
      (mkActivation (if same then si else Ctx.system_message context)
         (Some (prompt_token_count u)) (Some (candidates_token_count u))
         (Some (total_token_count u))
         (l ++ (if same then [] else [_create_client (Ctx.system_message context)])
            ++ [start_ttfb_metrics; stop_ttfb_metrics])).
Proof.
  cbn zeta. unfold generate, bind, gets, when, perform, modify, ret. cbn.
  destruct (same_instruction si (Ctx.system_message context)); cbn;
    rewrite <- ?app_assoc; reflexivity.
Qed.

Lemma report_and_end_bound (b : activation) (p k t : nat) :
  prompt_tokens b = Some p -> completion_tokens b = Some k ->
  total_tokens b = Some t ->
  report_and_end b
  = (Ok tt, mkActivation (_system_instruction b) (Some p) (Some k) (Some t)
              (effects b ++ [start_llm_usage_metrics p k t;
                             push_frame LLMFullResponseEndFrame])).
Proof.
  intros H1 H2 H3. unfold report_and_end, bind, local, gets, perform, modify, ret.
  cbn. rewrite H1. cbn. rewrite H2. cbn. rewrite H3. cbn.
  rewrite H1, H2, H3. rewrite <- app_assoc. reflexivity.
Qed.

Lemma quiet_then_report (l : list effect) (p k t : nat) :
  quiet l ->
  let all := l ++ [start_llm_usage_metrics p k t; push_frame LLMFullResponseEndFrame] in
  usage_reports all = 1 /\ end_markers all = 1
  /\ last all start_ttfb_metrics = push_frame LLMFullResponseEndFrame.
Proof.
  intros [Hu Hm]. cbn zeta. unfold usage_reports, end_markers in *.
  rewrite !filter_length_app, Hu, Hm. repeat split.
  change [start_llm_usage_metrics p k t; push_frame LLMFullResponseEndFrame]
    with ([start_llm_usage_metrics p k t] ++ [push_frame LLMFullResponseEndFrame]).
  rewrite app_assoc. apply last_last.
Qed.

(** Once the response has been obtained, the usage report and the
    end-of-turn marker are each emitted exactly once, the marker last,
    however the stream ends. *)
Lemma process_context_reports_once
  (u : usage_metadata) (steps : list stream_step) (context : Ctx.LLMContext)
  (system_instruction : option Std.content) (before : list effect) :
  let a := enter system_instruction before in
  exists a' extra,
    _process_context (Streaming u steps) context a = (Ok tt, a')
    /\ effects a' = before ++ extra
    /\ usage_reports extra = 1 /\ end_markers extra = 1
    /\ last extra start_ttfb_metrics = push_frame LLMFullResponseEndFrame.
Proof.
  cbn zeta. unfold _process_context, enter.
  unfold bind at 1. unfold perform at 1, modify at 1.
  cbn [_system_instruction prompt_tokens completion_tokens total_tokens effects].
  unfold try_finally, try_except. rewrite generate_streaming.
  set (same := same_instruction system_instruction (Ctx.system_message context)).
  set (head := if same then [] else [_create_client (Ctx.system_message context)]).
  match goal with
  | |- context [drain steps ?s] => set (a2 := s)
  end.
  assert (Hb : bound a2) by (unfold bound; cbn; eauto 7).
  destruct (drain_quiet steps a2 Hb) as (r & a3 & x & Hd & Hb3 & He3 & Hq).
  rewrite Hd.
  destruct Hb3 as (p & k & t & Hp & Hk & Ht).
  set (prefix := [push_frame LLMFullResponseStartFrame] ++ head
                   ++ [start_ttfb_metrics; stop_ttfb_metrics]).
  assert (Hprefix : quiet prefix).
  { subst prefix head. destruct same; split; reflexivity. }
  assert (Hshape : effects a3 = before ++ (prefix ++ x)).
  { rewrite He3. subst a2 prefix. cbn [effects]. rewrite <- !app_assoc. reflexivity. }
  destruct r as [[] | e].
  - rewrite (report_and_end_bound a3 p k t Hp Hk Ht).
    eexists _, ((prefix ++ x) ++ [start_llm_usage_metrics p k t;
                                  push_frame LLMFullResponseEndFrame]).
    split; [reflexivity |]. cbn [effects]. rewrite Hshape, <- app_assoc.
    split; [reflexivity |].
    apply quiet_then_report. apply quiet_app; assumption.
  - unfold perform at 1, modify at 1.
    match goal with
    | |- context [report_and_end ?s] => set (a4 := s)
    end.
    rewrite (report_and_end_bound a4 p k t Hp Hk Ht).
    eexists _, (((prefix ++ x) ++ [log_exception e])
                  ++ [start_llm_usage_metrics p k t;
                      push_frame LLMFullResponseEndFrame]).
    split; [reflexivity |]. subst a4. cbn [effects].
    rewrite Hshape, <- app_assoc, <- app_assoc.
    split; [f_equal; rewrite app_assoc; reflexivity |].
    apply quiet_then_report.
    apply quiet_app; [apply quiet_app; assumption | split; reflexivity].
Qed.

(** C4 (the code departs from the specification).  The specification
    asks that, whatever fails while the stream is opened or drained, one
    usage report be emitted at the end of the invocation and the
    end-of-turn marker still be emitted.  When [generate_content] itself
    raises, the [finally] clause reads the token counters before any of
    them was bound: the invocation ends with [UnboundLocalError], no usage
    report and no end-of-turn marker. *)
Theorem process_context_open_failure
  (e : exn) (context : Ctx.LLMContext)
  (system_instruction : option Std.content) (before : list effect) :
  let a := enter system_instruction before in
  let a' := state_after (_process_context (GenerateRaises e) context) a in
  result_of (_process_context (GenerateRaises e) context) a = Raise UnboundLocalError
  /\ usage_reports (effects a') = usage_reports before
  /\ end_markers (effects a') = end_markers before.
Proof.
  cbn zeta. unfold result_of, state_after, _process_context, generate, enter.
  unfold try_finally, try_except, bind, gets, when, perform, modify, raise, ret,
    report_and_end, local.
  cbn.
  destruct (same_instruction system_instruction (Ctx.system_message context));
    cbn; unfold usage_reports, end_markers;
    rewrite <- ?app_assoc, !filter_length_app; cbn; split; try reflexivity; lia.
Qed.

Lemma handle_parts_trace (ps : list Glm.Part) (a : activation) :
  exists extra,
    handle_parts ps a
    = (Ok tt, mkActivation (_system_instruction a) (prompt_tokens a)
                (completion_tokens a) (total_tokens a) (effects a ++ extra))
    /\ spoken extra = texts_in ps /\ called extra = calls_in ps.
Proof.
  revert a. induction ps as [| c rest IH]; intros a.
  - exists []. rewrite app_nil_r. destruct a. repeat split.
  - assert (Hc : exists one,
               handle_part c a
               = (Ok tt, mkActivation (_system_instruction a) (prompt_tokens a)
                           (completion_tokens a) (total_tokens a) (effects a ++ one))
               /\ spoken one = texts_in [c] /\ called one = calls_in [c]).
    { unfold handle_part, texts_in, calls_in. cbn [flat_map].
      destruct c as [s | m d | n args | n r]; cbn [Glm.has_text call_name].
      - destruct (truthy_str s).
        + exists [push_frame (TextFrame s)]. repeat split.
        + exists []. rewrite app_nil_r. destruct a. repeat split.
      - exists []. rewrite app_nil_r. destruct a. repeat split.
      - exists [call_function n args]. repeat split.
      - exists []. rewrite app_nil_r. destruct a. repeat split. }
    destruct Hc as (one & Hone & Hs & Hf).
    cbn [handle_parts]. unfold bind at 1. rewrite Hone.
    destruct (IH (mkActivation (_system_instruction a) (prompt_tokens a)
                    (completion_tokens a) (total_tokens a) (effects a ++ one)))
      as (more & Hmore & Hs' & Hf').
    exists (one ++ more). rewrite Hmore. cbn. rewrite app_assoc.
    split; [reflexivity |].
    unfold spoken, called in *. rewrite !flat_map_app, Hs, Hf, Hs', Hf'.
    unfold texts_in, calls_in. cbn [flat_map]. rewrite !app_nil_r. split; reflexivity.
Qed.

(** One chunk, with the locals bound: what it adds to the counters and
    what it emits. *)
Lemma handle_chunk_trace (c : chunk) (u : usage_metadata)
  (si : option Std.content) (p k t : nat) (l : list effect) :
  let counts := truthy_usage (chunk_usage_metadata c) in
  exists extra,
    handle_chunk c u (mkActivation si (Some p) (Some k) (Some t) l)
    = ((if stops c then Raise IndexError else Ok tt),
       mkActivation si
         (Some (p + if counts then prompt_token_count u else 0))
         (Some (k + if counts then candidates_token_count u else 0))
         (Some (t + if counts then total_token_count u else 0))
         (l ++ extra))
    /\ spoken extra = texts_in (parts_of c) /\ called extra = calls_in (parts_of c).
Proof.
  cbn zeta. unfold handle_chunk, stops, parts_of.
  set (a1 := mkActivation si
               (Some (p + if truthy_usage (chunk_usage_metadata c)
                          then prompt_token_count u else 0))
               (Some (k + if truthy_usage (chunk_usage_metadata c)
                          then candidates_token_count u else 0))
               (Some (t + if truthy_usage (chunk_usage_metadata c)
                          then total_token_count u else 0)) l).
  set (counted := when (truthy_usage (chunk_usage_metadata c)) _).
  assert (Hcount : counted (mkActivation si (Some p) (Some k) (Some t) l) = (Ok tt, a1)).
  { subst counted a1. unfold when. destruct (truthy_usage (chunk_usage_metadata c)).
    - reflexivity.
    - rewrite !Nat.add_0_r. reflexivity. }
  unfold bind at 1. rewrite Hcount. unfold try_except.
  destruct (chunk_parts c) as [ps | e].
  - destruct (handle_parts_trace ps a1) as (extra & Hps & Hs & Hf).
    rewrite Hps. exists extra. repeat split; assumption.
  - unfold raise, on_chunk_error.
    destruct (candidates c) as [| reason rest].
    + exists []. rewrite app_nil_r. repeat split.
    + destruct (reason =? 3)%nat.
      * exists [log_refusal]. repeat split.
      * exists [log_exception e]. repeat split.
Qed.

(** The whole stream, with the locals bound: the counters grow by the
    readings taken, and the texts and calls emitted are those of the
    handled chunks, in order. *)
Lemma drain_trace (steps : list stream_step)
  (si : option Std.content) (p k t : nat) (l : list effect) :
  exists r extra,
    drain steps (mkActivation si (Some p) (Some k) (Some t) l)
    = (r, mkActivation si
            (Some (p + list_sum (map prompt_token_count (readings steps))))
            (Some (k + list_sum (map candidates_token_count (readings steps))))
            (Some (t + list_sum (map total_token_count (readings steps))))
            (l ++ extra))
    /\ spoken extra = texts_in (parts_handled steps)
    /\ called extra = calls_in (parts_handled steps).
Proof.
  revert p k t l. induction steps as [| step rest IH]; intros p k t l.
  - exists (Ok tt), []. cbn. rewrite !Nat.add_0_r, app_nil_r. repeat split.
  - destruct step as [c u | e].
    + cbn [drain]. unfold bind at 1.
      destruct (handle_chunk_trace c u si p k t l) as (x1 & H1 & Hs1 & Hf1).
      cbn zeta in H1. rewrite H1.
      unfold readings, parts_handled. cbn [handled filter map flat_map fst snd].
      destruct (stops c).
      * exists (Raise IndexError), x1. cbn [flat_map]. rewrite !app_nil_r.
        split; [| split; assumption].
        destruct (truthy_usage (chunk_usage_metadata c)); cbn;
          rewrite ?Nat.add_0_r; reflexivity.
      * match goal with
        | |- context [drain rest (mkActivation si (Some ?p1) (Some ?k1) (Some ?t1) ?l1)] =>
            destruct (IH p1 k1 t1 l1) as (r2 & x2 & H2 & Hs2 & Hf2)
        end.
        exists r2, (x1 ++ x2). rewrite H2. split.
        -- fold (readings rest).
           destruct (truthy_usage (chunk_usage_metadata c)); cbn [map list_sum snd];
             rewrite <- ?app_assoc, ?Nat.add_0_r, <- ?Nat.add_assoc; reflexivity.
        -- fold (parts_handled rest). unfold spoken, called, texts_in, calls_in in *.
           rewrite !flat_map_app, Hs1, Hf1, Hs2, Hf2. split; reflexivity.
    + exists (Raise e), []. cbn. rewrite !Nat.add_0_r, app_nil_r. repeat split.
Qed.

(** X11.  Once the response has been obtained, the usage reported at the
    end of the invocation is the response's usage metadata as read when
    the stream was opened, plus one reading of the response's usage
    metadata for every handled chunk that carries usage metadata of its
    own (the response's figures are added, not the chunk's); the report is
    followed by the end-of-turn marker and by nothing else. *)
Theorem process_context_usage_totals
  (u : usage_metadata) (steps : list stream_step) (context : Ctx.LLMContext)
  (system_instruction : option Std.content) (before : list effect) :
  let a' := state_after (_process_context (Streaming u steps) context)
              (enter system_instruction before) in
  exists earlier,
    effects a'
    = before ++ earlier
        ++ [start_llm_usage_metrics
              (prompt_token_count u
               + list_sum (map prompt_token_count (readings steps)))
              (candidates_token_count u
               + list_sum (map candidates_token_count (readings steps)))
              (total_token_count u
               + list_sum (map total_token_count (readings steps)));
            push_frame LLMFullResponseEndFrame]
    /\ usage_reports earlier = 0.
Proof.
  cbn zeta. unfold state_after, _process_context, enter.
  unfold bind at 1. unfold perform at 1, modify at 1.
  cbn [_system_instruction prompt_tokens completion_tokens total_tokens effects].
  unfold try_finally, try_except. rewrite generate_streaming.
  set (same := same_instruction system_instruction (Ctx.system_message context)).
  set (head := if same then [] else [_create_client (Ctx.system_message context)]).
  match goal with
  | |- context [drain steps (mkActivation ?s (Some ?p) (Some ?k) (Some ?t) ?l)] =>
      destruct (drain_trace steps s p k t l) as (r & x & Hd & _ & _);
      pose proof (drain_quiet steps (mkActivation s (Some p) (Some k) (Some t) l)) as Hq
  end.
  destruct Hq as (r' & a3 & x' & Hd' & _ & He' & Hquiet);
    [unfold bound; cbn; eauto 7 |].
  rewrite Hd in Hd'. injection Hd' as <- <-. cbn [effects] in He'.
  apply app_inv_head in He'. subst x'.
  rewrite Hd.
  set (prefix := [push_frame LLMFullResponseStartFrame] ++ head
                   ++ [start_ttfb_metrics; stop_ttfb_metrics]).
  assert (Hhead : usage_reports prefix = 0).
  { subst prefix head. destruct same; reflexivity. }
  destruct Hquiet as [Hx _].
  destruct r as [[] | e].
  - erewrite report_and_end_bound by reflexivity. cbn [snd effects].
    exists (prefix ++ x).
    split; [subst prefix; rewrite <- !app_assoc; reflexivity |].
    unfold usage_reports in *. rewrite filter_length_app. lia.
  - unfold perform at 1, modify at 1.
    erewrite report_and_end_bound by reflexivity. cbn [snd effects].
    exists ((prefix ++ x) ++ [log_exception e]).
    split; [subst prefix; rewrite <- !app_assoc; reflexivity |].
    unfold usage_reports in *. rewrite !filter_length_app.
    change (length (filter is_usage_report [log_exception e])) with 0. lia.
Qed.

Lemma same_instruction_eq (a b : option Std.content) :
  same_instruction a b = true -> a = b.
Proof.
  unfold same_instruction. destruct a as [x |], b as [y |]; try discriminate;
    [| reflexivity].
  destruct (content_eq_dec x y) as [-> |]; [reflexivity | discriminate].
Qed.

(** X12.  Once the response has been obtained, the invocation emits, in
    this order: the start-of-turn frame; the re-creation of the client,
    exactly when the context's system message is not the service's system
    instruction; the start and the stop of the time-to-first-byte metric;
    then the body, whose text frames are the non-empty texts of the parts
    of the handled chunks and whose function calls are those parts'
    function calls, both in order; and a closing run with no text frame
    and no call.  Afterwards the service's system instruction is the
    context's system message. *)
Theorem process_context_emits_in_order
  (u : usage_metadata) (steps : list stream_step) (context : Ctx.LLMContext)
  (system_instruction : option Std.content) (before : list effect) :
  let a' := state_after (_process_context (Streaming u steps) context)
              (enter system_instruction before) in
  exists body closing,
    effects a'
    = before
        ++ [push_frame LLMFullResponseStartFrame]
        ++ (if same_instruction system_instruction (Ctx.system_message context)
            then [] else [_create_client (Ctx.system_message context)])
        ++ [start_ttfb_metrics; stop_ttfb_metrics]
        ++ body ++ closing
    /\ spoken body = texts_in (parts_handled steps)
    /\ called body = calls_in (parts_handled steps)
    /\ spoken closing = [] /\ called closing = []
    /\ _system_instruction a' = Ctx.system_message context.
Proof.
  cbn zeta. unfold state_after.
  remember (_process_context (Streaming u steps) context
              (enter system_instruction before)) as run eqn:Hrun.
  unfold _process_context, enter in Hrun.
  unfold bind at 1 in Hrun. unfold perform at 1, modify at 1 in Hrun.
  cbn [_system_instruction prompt_tokens completion_tokens total_tokens effects] in Hrun.
  unfold try_finally, try_except in Hrun. rewrite generate_streaming in Hrun.
  pose proof (same_instruction_eq system_instruction (Ctx.system_message context))
    as Hsame.
  set (same := same_instruction system_instruction (Ctx.system_message context)) in *.
  set (head := if same then [] else [_create_client (Ctx.system_message context)]) in *.
  assert (Hsi : (if same then system_instruction else Ctx.system_message context)
                = Ctx.system_message context).
  { destruct same; [apply Hsame |]; reflexivity. }
  rewrite Hsi in Hrun.
  match type of Hrun with
  | context [drain steps (mkActivation ?s (Some ?p) (Some ?k) (Some ?t) ?l)] =>
      destruct (drain_trace steps s p k t l) as (r & x & Hd & Hs & Hf)
  end.
  rewrite Hd in Hrun. destruct r as [[] | e].
  - erewrite report_and_end_bound in Hrun by reflexivity. subst run.
    cbn [snd effects _system_instruction].
    eexists x, _. split; [rewrite <- !app_assoc; reflexivity |].
    repeat split; assumption.
  - unfold perform at 1, modify at 1 in Hrun.
    erewrite report_and_end_bound in Hrun by reflexivity. subst run.
    cbn [snd effects _system_instruction].
    eexists x, (_ :: _). split; [rewrite <- !app_assoc; reflexivity |].
    repeat split; assumption.
Qed.

Lemma handle_chunk_stops (c : chunk) (u : usage_metadata) (a : activation) :
  stops c = true -> exists e a', handle_chunk c u a = (Raise e, a').
Proof.
  unfold stops, handle_chunk. intros H. unfold bind at 1.
  destruct (when _ _ a) as [[[] | e] a1]; [| eexists _, _; reflexivity].
  unfold try_except. destruct (chunk_parts c) as [ps | e]; [discriminate H |].
  unfold raise, on_chunk_error.
  destruct (candidates c); [eexists _, _; reflexivity | discriminate H].
Qed.

Lemma drain_stops (c : chunk) (u : usage_metadata) (rest : list stream_step) :
  stops c = true ->
  forall (pre : list stream_step) (a : activation),
    drain (pre ++ Yield c u :: rest) a = drain (pre ++ [Yield c u]) a
    /\ exists e, fst (drain (pre ++ [Yield c u]) a) = Raise e.
Proof.
  intros H. induction pre as [| step pre IH]; intros a.
  - cbn [app drain]. unfold bind.
    destruct (handle_chunk_stops c u a H) as (e & a' & ->). split; [reflexivity |].
    exists e. reflexivity.
  - destruct step as [c' u' | e'].
    + cbn [app drain]. unfold bind.
      destruct (handle_chunk c' u' a) as [[[] | e1] a1]; [apply IH |].
      split; [reflexivity |]. exists e1. reflexivity.
    + split; [reflexivity |]. exists e'. reflexivity.
Qed.

(** X13.  A chunk whose parts cannot be read and which has no candidate
    ends the loop over the response: whatever the stream holds after it is
    never handled, so that the invocation is the same as if the stream had
    ended with that chunk; an exception is logged, then the usage is
    reported and the end-of-turn marker is pushed. *)
Theorem unreadable_chunk_ends_stream
  (c : chunk) (ru u : usage_metadata) (pre rest : list stream_step)
  (context : Ctx.LLMContext) (system_instruction : option Std.content)
  (before : list effect) :
  stops c = true ->
  let a := enter system_instruction before in
  _process_context (Streaming u (pre ++ Yield c ru :: rest)) context a
  = _process_context (Streaming u (pre ++ [Yield c ru])) context a
  /\ exists e earlier p k t,
      effects (state_after
                 (_process_context (Streaming u (pre ++ Yield c ru :: rest)) context) a)
      = before ++ earlier
          ++ [log_exception e; start_llm_usage_metrics p k t;
              push_frame LLMFullResponseEndFrame].
Proof.
  intros Hstops. cbn zeta.
  assert (Hsame : _process_context (Streaming u (pre ++ Yield c ru :: rest)) context
                    (enter system_instruction before)
                  = _process_context (Streaming u (pre ++ [Yield c ru])) context
                      (enter system_instruction before)).
  { assert (Hrun : forall steps,
              _process_context (Streaming u steps) context
                (enter system_instruction before)
              = try_finally
                  (try_except (generate (Streaming u steps) context)
                     (fun e => perform (log_exception e)))
                  report_and_end
                  (mkActivation system_instruction None None None
                     (before ++ [push_frame LLMFullResponseStartFrame])))
      by reflexivity.
    rewrite !Hrun. unfold try_finally, try_except. rewrite !generate_streaming.
    rewrite (proj1 (drain_stops c ru rest Hstops pre _)). reflexivity. }
  split; [exact Hsame |].
  unfold state_after. rewrite Hsame. unfold _process_context, enter.
  unfold bind at 1. unfold perform at 1, modify at 1.
  cbn [_system_instruction prompt_tokens completion_tokens total_tokens effects].
  unfold try_finally, try_except. rewrite generate_streaming.
  match goal with
  | |- context [drain ?st (mkActivation ?s (Some ?p) (Some ?k) (Some ?t) ?l)] =>
      destruct (drain_trace st s p k t l) as (r & x & Hd & _ & _);
      destruct (proj2 (drain_stops c ru rest Hstops pre
                         (mkActivation s (Some p) (Some k) (Some t) l))) as (e & He)
  end.
  rewrite Hd in He. cbn [fst] in He. subst r. rewrite Hd.
  unfold perform at 1, modify at 1.
  erewrite report_and_end_bound by reflexivity. cbn [snd effects].
  exists e.
  exists ([push_frame LLMFullResponseStartFrame]
            ++ (if same_instruction system_instruction (Ctx.system_message context)
                then [] else [_create_client (Ctx.system_message context)])
            ++ [start_ttfb_metrics; stop_ttfb_metrics] ++ x).
  eexists _, _, _. rewrite <- !app_assoc. reflexivity.
Qed.

End Streaming.

(** ** Strings *)

Lemma string_app_nil_r (s : string) : (s ++ "")%string = s.
Proof.
  induction s as [| c s IH]; [reflexivity | cbn; rewrite IH; reflexivity].
Qed.

Lemma string_app_assoc (s t u : string) : ((s ++ t) ++ u = s ++ (t ++ u))%string.
Proof.
  induction s as [| c s IH]; [reflexivity | cbn; rewrite IH; reflexivity].
Qed.

Lemma concat_cons (f : string) (fs : list string) :
  String.concat "" (f :: fs) = (f ++ String.concat "" fs)%string.
Proof.
  destruct fs as [| g fs]; cbn; [rewrite string_app_nil_r |]; reflexivity.
Qed.

Lemma truthy_str_nonempty (s : string) : truthy_str s = true <-> s <> "".
Proof.
  unfold truthy_str. destruct s; cbn; split; intros H; congruence.
Qed.

Lemma truthy_str_empty (s : string) : truthy_str s = false <-> s = "".
Proof.
  unfold truthy_str. destruct s; cbn; split; intros H; congruence.
Qed.

(** ** The user aggregator *)

Section UserAggregator.

Import Aggregator.

Lemma fragments_accumulate (fragments : list string) (a : LLMResponseAggregator) :
  on_text_fragments fragments a
  = (Ok tt,
     mkAggregator (_aggregation a ++ String.concat "" fragments) (_context a)
       (match fragments with [] => _aggregating a | _ :: _ => true end)
       (observed a)).
Proof.
  revert a. induction fragments as [| f rest IH]; intros a.
  - destruct a. cbn. rewrite string_app_nil_r. reflexivity.
  - cbn [on_text_fragments]. unfold bind, on_text_fragment, modify.
    rewrite IH. rewrite concat_cons. cbn. rewrite string_app_assoc.
    destruct rest; reflexivity.
Qed.

(** A flush of a non-empty buffer: the message is appended while the
    buffer still holds the text, then the buffer is cleared, then the
    context frame is pushed. *)
Lemma user_flush_commits (a : LLMResponseAggregator) :
  _aggregation a <> "" ->
  let m := Ctx.Canon (user_text_message (_aggregation a)) in
  GoogleUserContextAggregator._push_aggregation a
  = (Ok tt,
     mkAggregator ""
       (Ctx.with_messages (messages a ++ [m]) (_context a))
       false
       (observed a
          ++ [mkObservation (Appended m) (_aggregation a);
              mkObservation (PushFrame (messages a ++ [m])) ""])).
Proof.
  intros Hne. destruct a as [buffer ctx flag obs]. cbn in Hne.
  destruct buffer as [| c rest]; [congruence |].
  unfold GoogleUserContextAggregator._push_aggregation, bind, gets, modify, call_context,
    push_frame, observe, _reset, Ctx.add_message, messages.
  cbn. rewrite skipn_length_app. cbn. rewrite <- app_assoc. reflexivity.
Qed.

Lemma user_flush_idle (a : LLMResponseAggregator) :
  _aggregation a = "" ->
  GoogleUserContextAggregator._push_aggregation a = (Ok tt, a).
Proof.
  intros He. unfold GoogleUserContextAggregator._push_aggregation, bind, gets.
  rewrite He. reflexivity.
Qed.

(** A flush from any state of the user aggregator. *)
Lemma user_flush_outcome (a1 : LLMResponseAggregator) :
  let a2 := state_after GoogleUserContextAggregator._push_aggregation a1 in
  result_of GoogleUserContextAggregator._push_aggregation a1 = Ok tt
  /\ _aggregation a2 = ""
  /\ (if truthy_str (_aggregation a1)
      then messages a2
           = messages a1 ++ [Ctx.Canon (user_text_message (_aggregation a1))]
           /\ map what (observed_since a1 a2)
              = [Appended (Ctx.Canon (user_text_message (_aggregation a1)));
                 PushFrame (messages a2)]
      else a2 = a1).
Proof.
  cbn zeta. unfold result_of, state_after, observed_since.
  destruct (truthy_str (_aggregation a1)) eqn:Ht.
  - apply truthy_str_nonempty in Ht. rewrite (user_flush_commits a1 Ht).
    cbn. rewrite skipn_length_app. repeat split.
  - apply truthy_str_empty in Ht. rewrite (user_flush_idle a1 Ht).
    cbn. repeat split. exact Ht.
Qed.

(** C7.  From an empty buffer, after any text fragments, a flush commits
    one user message whose text is the concatenation of the fragments in
    arrival order and pushes one context frame; the buffer is empty
    afterwards; and a flush with an empty buffer changes nothing and
    emits nothing. *)
Theorem user_flush_concatenates
  (a : Aggregator.LLMResponseAggregator) (fragments : list string) :
  _aggregation a = "" ->
  let joined := String.concat "" fragments in
  let a1 := state_after (on_text_fragments fragments) a in
  let a2 := state_after GoogleUserContextAggregator._push_aggregation a1 in
  result_of GoogleUserContextAggregator._push_aggregation a1 = Ok tt
  /\ _aggregation a1 = joined
  /\ _aggregation a2 = ""
  /\ (if truthy_str joined
      then messages a2 = messages a ++ [Ctx.Canon (user_text_message joined)]
           /\ map what (observed_since a1 a2)
              = [Appended (Ctx.Canon (user_text_message joined));
                 PushFrame (messages a2)]
      else a2 = a1)
  /\ (forall idle, _aggregation idle = "" ->
                   GoogleUserContextAggregator._push_aggregation idle = (Ok tt, idle)).
Proof.
  intros Hidle. cbn zeta.
  assert (Ha1 : state_after (on_text_fragments fragments) a
                = mkAggregator (String.concat "" fragments) (_context a)
                    (match fragments with [] => _aggregating a | _ :: _ => true end)
                    (observed a)).
  { unfold state_after. rewrite fragments_accumulate, Hidle. reflexivity. }
  rewrite Ha1.
  match goal with
  | |- context [state_after GoogleUserContextAggregator._push_aggregation ?s] =>
      set (a1 := s)
  end.
  destruct (user_flush_outcome a1) as (Hr & Hb & Hcases).
  cbn zeta in Hb, Hcases.
  split; [exact Hr |]. split; [reflexivity |]. split; [exact Hb |].
  split; [exact Hcases | exact user_flush_idle].
Qed.

(** On the fragments "Hel" and "lo", from an idle aggregator. *)
Lemma user_flush_concatenates_witness :
  let a := Demo.idle_user Demo.empty_context in
  _aggregation a = ""
  /\ messages (state_after GoogleUserContextAggregator._push_aggregation
                 (state_after (on_text_fragments ["Hel"; "lo"]) a))
     = [Ctx.Canon (user_text_message "Hello")].
Proof.
  split; [reflexivity |].
  exact (proj1 (proj1 (proj2 (proj2 (proj2
    (user_flush_concatenates (Demo.idle_user Demo.empty_context) ["Hel"; "lo"]
       eq_refl)))))).
Defined.

End UserAggregator.

(** ** The assistant aggregator *)

Section AssistantAggregator.

Import Aggregator.
Import GoogleAssistantContextAggregator.

Context {collab : Collaborators}.

(** Running a flush symbolically: every call is unfolded, the entries a
    context call appended are read off, and the observations are
    regrouped behind the ones made before the flush. *)
Ltac unfold_flush :=
  unfold result_of, state_after, GoogleAssistantContextAggregator.observed_since,
    Aggregator.observed_since, appended, GoogleAssistantContextAggregator.messages,
    Aggregator.messages, _push_aggregation, commit_turn, commit_image, inherited, zoom,
    call_context, push_frame, observe, _reset, Ctx.add_message,
    Ctx.add_image_frame_message, encoded, try_except, when, bind, get, gets, modify,
    ret, raise in *;
  cbn in *.

Ltac regroup :=
  repeat (first [rewrite skipn_length_app | rewrite skipn_length_self]; cbn);
  rewrite <- ?app_assoc; cbn;
  repeat (first [rewrite skipn_length_app | rewrite skipn_length_self]; cbn).

Ltac run_flush :=
  unfold_flush; rewrite ?orb_true_r; cbn;
  repeat match goal with
         | H : truthy_payload _ = _ |- _ => rewrite H; cbn
         | H : jpeg_encode _ _ _ = _ |- _ => rewrite H; cbn
         end;
  regroup.

Lemma add_message_after (ctx : Ctx.LLMContext) (earlier : list Ctx.entry)
  (m : Glm.Content) :
  Ctx.add_message m (Ctx.with_messages (Ctx._messages ctx ++ earlier) ctx)
  = (Ok tt, Ctx.with_messages (Ctx._messages ctx ++ earlier ++ [Ctx.Canon m]) ctx).
Proof.
  unfold Ctx.add_message, modify, Ctx.with_messages. cbn.
  rewrite <- app_assoc. reflexivity.
Qed.

(** C1 (as amended).  When the pending function result has a truthy
    payload, a flush appends the function-call message (role model) and then
    the function-response message (role user, a string result wrapped as
    the mapping from "response" to it) and clears the pending slot; when no
    attachment is pending these are the only messages appended and the
    re-invocation signal is sent exactly when no function call is in
    progress. *)
Theorem function_result_flush (s : state) (frame : FunctionCallResultFrame) :
  _function_call_result s = Some frame ->
  truthy_payload (result frame) = true ->
  let s' := state_after _push_aggregation s in
  _function_call_result s' = None
  /\ (exists tail,
        GoogleAssistantContextAggregator.messages s'
        = GoogleAssistantContextAggregator.messages s
            ++ [Ctx.Canon (call_message frame); Ctx.Canon (response_message frame)]
            ++ tail
        /\ (_pending_image_frame_message s = None ->
            tail = []
            /\ result_of _push_aggregation s = Ok tt
            /\ signals (GoogleAssistantContextAggregator.observed_since s s')
               = if (_function_calls_in_progress s =? 0)%nat then 1 else 0)).
Proof.
  destruct s as [[buffer ctx flag obs] pending n img]. cbn. intros -> Htruthy.
  destruct img as [f |].
  - destruct (encoded f) as [jpeg |] eqn:He; run_flush;
      (split; [reflexivity |]); eexists; (split; [reflexivity | discriminate]).
  - destruct n; run_flush;
      (split; [reflexivity |]); exists []; repeat split.
Qed.

(** C8 (as amended).  When an attachment is pending and the image-message
    operation does not raise, a flush clears the pending slot, appends the
    attachment by that operation after whatever the turn itself appended,
    and sends the re-invocation signal once, whatever the text buffer, the
    pending function result and the number of function calls in progress. *)
Theorem attachment_flush (s : state) (img : OpenAIImageMessageFrame) (jpeg : bytes) :
  _pending_image_frame_message s = Some img ->
  encoded img = Some jpeg ->
  let s' := state_after _push_aggregation s in
  result_of _push_aggregation s = Ok tt
  /\ _pending_image_frame_message s' = None
  /\ (exists earlier,
        GoogleAssistantContextAggregator.messages s'
        = GoogleAssistantContextAggregator.messages s
            ++ earlier ++ [Ctx.Canon (image_message img jpeg)]
        /\ Ctx.add_image_frame_message
             (format (user_image_raw_frame img)) (size (user_image_raw_frame img))
             (image (user_image_raw_frame img)) (text img)
             (Ctx.with_messages (GoogleAssistantContextAggregator.messages s ++ earlier)
                (_context (base s)))
           = (Ok tt, _context (base s')))
  /\ signals (GoogleAssistantContextAggregator.observed_since s s') = 1.
Proof.
  destruct s as [[buffer ctx flag obs] pending n f]. cbn. intros -> He.
  destruct pending as [frame |].
  - destruct (truthy_payload (result frame)) eqn:Ht.
    + destruct n; run_flush; repeat split;
        exists [Ctx.Canon (call_message frame); Ctx.Canon (response_message frame)];
        (split; [reflexivity | exact (add_message_after ctx _ _)]).
    + destruct n; run_flush; repeat split;
        exists []; (split; [reflexivity | exact (add_message_after ctx [] _)]).
  - run_flush. repeat split.
    exists [Ctx.Canon (Glm.mkContent "model" [Glm.text buffer])].
    split; [reflexivity | exact (add_message_after ctx _ _)].
Qed.

(** When the image-message operation raises, the exception is caught: the
    slot is cleared all the same, nothing is appended for the attachment,
    no signal is sent and no context frame is pushed. *)
Lemma failed_attachment_flush (s : state) (img : OpenAIImageMessageFrame) :
  _pending_image_frame_message s = Some img ->
  encoded img = None ->
  let s' := state_after _push_aggregation s in
  result_of _push_aggregation s = Ok tt
  /\ _pending_image_frame_message s' = None
  /\ signals (GoogleAssistantContextAggregator.observed_since s s') = 0
  /\ existsb is_context_frame (GoogleAssistantContextAggregator.observed_since s s')
     = false.
Proof.
  destruct s as [[buffer ctx flag obs] pending n f]. cbn. intros -> He.
  destruct pending as [frame |].
  - destruct (truthy_payload (result frame)) eqn:Ht; destruct n; run_flush;
      repeat split.
  - run_flush. repeat split.
Qed.

(** C10 (as amended).  When the pending function result has a falsy
    payload, a flush clears the pending slot, appends no function-call or
    function-response message and commits no message for the buffered text,
    which is dropped; no re-invocation signal is sent, whatever the number
    of function calls in progress, unless an attachment is pending as well:
    then the attachment is appended and the signal is sent. *)
Theorem falsy_result_flush (s : state) (frame : FunctionCallResultFrame) :
  _function_call_result s = Some frame ->
  truthy_payload (result frame) = false ->
  let s' := state_after _push_aggregation s in
  result_of _push_aggregation s = Ok tt
  /\ _function_call_result s' = None
  /\ _aggregation (base s') = ""
  /\ existsb has_function_part (appended s s') = false
  /\ ~ In (Ctx.Canon (Glm.mkContent "model" [Glm.text (_aggregation (base s))]))
          (appended s s')
  /\ match _pending_image_frame_message s with
     | None =>
         GoogleAssistantContextAggregator.messages s'
         = GoogleAssistantContextAggregator.messages s
         /\ signals (GoogleAssistantContextAggregator.observed_since s s') = 0
     | Some img =>
         match encoded img with
         | Some jpeg =>
             GoogleAssistantContextAggregator.messages s'
             = GoogleAssistantContextAggregator.messages s
                 ++ [Ctx.Canon (image_message img jpeg)]
             /\ signals (GoogleAssistantContextAggregator.observed_since s s') = 1
         | None =>
             GoogleAssistantContextAggregator.messages s'
             = GoogleAssistantContextAggregator.messages s
             /\ signals (GoogleAssistantContextAggregator.observed_since s s') = 0
         end
     end.
Proof.
  destruct s as [[buffer ctx flag obs] pending n img]. cbn. intros -> Hfalsy.
  destruct img as [f |].
  - destruct (encoded f) as [jpeg |] eqn:He; unfold encoded in He; run_flush.
    + repeat split.
      * destruct (text f) as [t |]; [destruct (truthy_str t) |]; reflexivity.
      * intros [H | []]. discriminate H.
    + repeat split; try (intros []); rewrite ?app_nil_r; reflexivity.
  - run_flush. repeat split; try (intros []); rewrite ?app_nil_r; reflexivity.
Qed.

(** The assistant half of the ordering rule: every append and every
    emission of a flush is made with the buffer already empty. *)
Lemma assistant_clears_first (s : state) :
  forallb after_clear
    (GoogleAssistantContextAggregator.observed_since s
       (state_after _push_aggregation s)) = true.
Proof.
  destruct s as [[buffer ctx flag obs] pending n img].
  destruct pending as [frame |]; [destruct (truthy_payload (result frame)) eqn:Ht |];
    (destruct img as [f |];
     [destruct (jpeg_encode (format (user_image_raw_frame f))
                  (size (user_image_raw_frame f)) (image (user_image_raw_frame f)))
        eqn:He |]);
    destruct n; destruct (truthy_str buffer) eqn:Hb;
    run_flush; rewrite ?Hb; cbn; regroup; rewrite ?skipn_length_self; reflexivity.
Qed.

Ltac by_cases s :=
  let buffer := fresh "buffer" in
  let pending := fresh "pending" in
  let n := fresh "n" in
  let img := fresh "img" in
  destruct s as [[buffer ? ? ?] pending n img];
  destruct pending as [? |];
  [ match goal with
    | frame : FunctionCallResultFrame |- _ =>
        destruct (truthy_payload (result frame)) eqn:?
    end |];
  (destruct img as [? |];
   [ match goal with
     | f : OpenAIImageMessageFrame |- _ =>
         destruct (jpeg_encode (format (user_image_raw_frame f))
                     (size (user_image_raw_frame f)) (image (user_image_raw_frame f)))
           eqn:?
     end |]);
  destruct n; destruct buffer.

(** X7.  A flush of the assistant aggregator never raises; it leaves the
    text buffer empty (through the base class's [_reset]) and both pending
    slots empty, and does not touch the count of function calls in
    progress; flushing again at once does nothing at all. *)
Theorem assistant_flush_settles (s : state) :
  let s' := state_after _push_aggregation s in
  result_of _push_aggregation s = Ok tt
  /\ _aggregation (base s') = ""
  /\ _function_call_result s' = None
  /\ _pending_image_frame_message s' = None
  /\ _function_calls_in_progress s' = _function_calls_in_progress s
  /\ _push_aggregation s' = (Ok tt, s').
Proof.
  by_cases s; run_flush; repeat split.
Qed.

(** X8.  A flush of the assistant aggregator only appends to the context:
    the messages held before are kept, in place; at most three entries are
    appended, all of them canonical messages; the context's class and its
    system message are left as they were. *)
Theorem assistant_flush_appends_only (s : state) :
  let s' := state_after _push_aggregation s in
  GoogleAssistantContextAggregator.messages s'
  = GoogleAssistantContextAggregator.messages s ++ appended s s'
  /\ length (appended s s') <= 3
  /\ forallb is_canonical (appended s s') = true
  /\ Ctx.cls (_context (base s')) = Ctx.cls (_context (base s))
  /\ Ctx.system_message (_context (base s')) = Ctx.system_message (_context (base s)).
Proof.
  by_cases s; run_flush; rewrite ?app_nil_r; repeat split; lia.
Qed.

(** X9.  When an attachment is pending and no function result is, the
    flush commits the buffered text as a model message before the
    attachment, also when the buffer is empty: the context then gains a
    model message whose only part is an empty text. *)
Theorem attachment_alone_commits_text (s : state) (img : OpenAIImageMessageFrame) :
  _function_call_result s = None ->
  _pending_image_frame_message s = Some img ->
  appended s (state_after _push_aggregation s)
  = Ctx.Canon (Glm.mkContent "model" [Glm.text (_aggregation (base s))])
      :: match encoded img with
         | Some jpeg => [Ctx.Canon (image_message img jpeg)]
         | None => []
         end.
Proof.
  destruct s as [[buffer ctx flag obs] pending n f]. cbn. intros -> ->.
  destruct (encoded img) as [jpeg |] eqn:He; unfold encoded in He; run_flush;
    reflexivity.
Qed.

(** X10.  What a flush of the assistant aggregator emits.  Idle, it emits
    nothing.  When the pending attachment cannot be encoded, it logs the
    exception last, and sends no re-invocation signal and no context
    frame, even though the turn's messages were appended.  In every other
    case the context frame is pushed exactly once, last, and carries the
    context as the flush leaves it. *)
Theorem assistant_flush_pushes_context_last (s : state) :
  let s' := state_after _push_aggregation s in
  let obs := GoogleAssistantContextAggregator.observed_since s s' in
  if idle s then obs = []
  else if attachment_fails s then
    exists e,
      obs = removelast obs ++ [mkObservation (LoggedException e) ""]
      /\ existsb is_context_frame obs = false
      /\ signals obs = 0
  else
    obs = removelast obs
            ++ [mkObservation (PushFrame (GoogleAssistantContextAggregator.messages s')) ""]
    /\ existsb is_context_frame (removelast obs) = false.
Proof.
  unfold idle, attachment_fails, encoded.
  by_cases s; cbn [_pending_image_frame_message _function_call_result base _aggregation
                   is_some truthy_str orb negb];
    repeat match goal with
           | H : jpeg_encode _ _ _ = _ |- _ => rewrite H
           end;
    cbn [String.length Nat.ltb Nat.leb orb negb];
    run_flush; try reflexivity;
    try (eexists; repeat split; reflexivity);
    repeat split.
Qed.

(** X17.  Whatever a flush of the assistant aggregator appends to the
    context can be exported: [to_standard_messages] turns each appended
    message into one standard message, without raising. *)
Theorem appended_messages_export (s : state) :
  Forall exportable (appended s (state_after _push_aggregation s)).
Proof.
  by_cases s; run_flush; repeat apply Forall_cons; try apply Forall_nil;
    unfold exportable, Ctx.to_standard_messages, image_message;
    repeat match goal with
           | |- context [text ?f] => destruct (text f) as [? |]
           end;
    repeat (first [ progress cbn
                  | progress unfold Ctx.to_standard_part, Ctx.append_content,
                      Glm.has_text, Glm.has_inline_data
                  | match goal with
                    | H : truthy_str ?t = _ |- context [truthy_str ?t] => rewrite H
                    | |- context [if ?b then _ else _] => destruct b eqn:?
                    end ]);
    eexists; reflexivity.
Qed.

End AssistantAggregator.

(** C2 (as amended).  In a flush of the assistant aggregator, every append
    to the context and every emission is made with the text buffer already
    cleared.  In a flush of the user aggregator the message is appended
    first, while the buffer still holds the text; the buffer is cleared
    next, before the context frame is pushed downstream. *)
Theorem flush_ordering {collab : Collaborators} :
  (forall s : GoogleAssistantContextAggregator.state,
      forallb after_clear
        (GoogleAssistantContextAggregator.observed_since s
           (state_after GoogleAssistantContextAggregator._push_aggregation s)) = true)
  /\ (forall a : Aggregator.LLMResponseAggregator,
         let a' := state_after GoogleUserContextAggregator._push_aggregation a in
         let m := Ctx.Canon (user_text_message (Aggregator._aggregation a)) in
         Aggregator._aggregation a' = ""
         /\ Aggregator.observed_since a a'
            = if truthy_str (Aggregator._aggregation a)
              then [mkObservation (Appended m) (Aggregator._aggregation a);
                    mkObservation (PushFrame (Aggregator.messages a ++ [m])) ""]
              else []).
Proof.
  split; [exact assistant_clears_first |].
  intros a. cbn zeta. unfold state_after, Aggregator.observed_since.
  destruct (truthy_str (Aggregator._aggregation a)) eqn:Ht.
  - apply truthy_str_nonempty in Ht. rewrite (user_flush_commits a Ht). cbn.
    rewrite skipn_length_app. split; reflexivity.
  - apply truthy_str_empty in Ht. rewrite (user_flush_idle a Ht). cbn.
    rewrite skipn_length_self. split; [exact Ht | reflexivity].
Qed.

Section AggregatorsOnExamples.

Import GoogleAssistantContextAggregator.

#[local] Existing Instance Demo.collaborators.

(** The ordering rule as worded fails for the user aggregator: with "hi"
    buffered, the append is made while the buffer still reads "hi". *)
Lemma user_flush_appends_before_clearing :
  ~ user_clears_first (Aggregator.mkAggregator "hi" Demo.empty_context true []).
Proof.
  unfold user_clears_first. vm_compute. discriminate.
Qed.

(** The function-result rule as worded fails on a pending result whose
    payload is [None]: nothing is appended. *)
Lemma function_result_none_appends_nothing :
  ~ function_result_as_stated
      (Demo.assistant "" (Some (Demo.weather_result PyNone)) 0 None).
Proof.
  intros H. specialize (H _ eq_refl). destruct H as [H _].
  vm_compute in H. discriminate H.
Qed.

(** A result "sunny", nothing else pending, no call in progress. *)
Lemma function_result_flush_witness :
  let frame := Demo.weather_result (PyStr "sunny") in
  let s := Demo.assistant "" (Some frame) 0 None in
  let s' := state_after _push_aggregation s in
  _function_call_result s' = None
  /\ (exists tail,
        messages s'
        = messages s
            ++ [Ctx.Canon (call_message frame); Ctx.Canon (response_message frame)]
            ++ tail
        /\ (_pending_image_frame_message s = None ->
            tail = []
            /\ result_of _push_aggregation s = Ok tt
            /\ signals (observed_since s s')
               = if (_function_calls_in_progress s =? 0)%nat then 1 else 0)).
Proof.
  exact (function_result_flush
           (Demo.assistant "" (Some (Demo.weather_result (PyStr "sunny"))) 0 None)
           (Demo.weather_result (PyStr "sunny"))
           eq_refl eq_refl).
Defined.

(** A one-pixel attachment, no text, two calls in progress. *)
Lemma attachment_flush_witness :
  let s := Demo.assistant "" None 2 (Some Demo.pixel) in
  let s' := state_after _push_aggregation s in
  encoded Demo.pixel = Some [Byte.x80]
  /\ _function_calls_in_progress s = 2
  /\ signals (observed_since s s') = 1.
Proof.
  split; [reflexivity |]. split; [reflexivity |].
  exact (proj2 (proj2 (proj2
    (attachment_flush
       (Demo.assistant "" None 2 (Some Demo.pixel)) Demo.pixel [Byte.x80]
       eq_refl eq_refl)))).
Defined.

(** The attachment rule as worded fails on a frame whose pixel buffer is
    too short for its size: the encoder raises, the flush catches the
    exception, and no signal is sent. *)
Lemma truncated_attachment_sends_no_signal :
  ~ attachment_as_stated (Demo.assistant "" None 2 (Some Demo.truncated)).
Proof.
  intros H. specialize (H _ eq_refl). destruct H as [_ H].
  vm_compute in H. discriminate H.
Qed.

(** The falsy-result rule as worded fails when an attachment is pending
    too: the signal is sent. *)
Lemma falsy_result_with_attachment_signals :
  ~ falsy_result_as_stated
      (Demo.assistant "draft" (Some (Demo.weather_result (PyStr ""))) 0
         (Some Demo.pixel)).
Proof.
  intros H. specialize (H _ eq_refl eq_refl). destruct H as (_ & H & _).
  vm_compute in H. discriminate H.
Qed.

(** A result [None] with "draft" buffered and no call in progress. *)
Lemma falsy_result_flush_witness :
  let s := Demo.assistant "draft" (Some (Demo.weather_result PyNone)) 0 None in
  let s' := state_after _push_aggregation s in
  truthy_payload PyNone = false
  /\ _function_call_result s' = None
  /\ Aggregator._aggregation (base s') = ""
  /\ messages s' = messages s
  /\ signals (observed_since s s') = 0.
Proof.
  split; [reflexivity |].
  pose proof (falsy_result_flush
                (Demo.assistant "draft" (Some (Demo.weather_result PyNone)) 0 None)
                (Demo.weather_result PyNone) eq_refl eq_refl) as H.
  exact (conj (proj1 (proj2 H))
           (conj (proj1 (proj2 (proj2 H)))
              (proj2 (proj2 (proj2 (proj2 (proj2 H))))))).
Defined.

End AggregatorsOnExamples.

(** ** Restructuring and upgrade *)

Lemma for_each_cons {S A B : Type} (f : A -> M S B) (x : A) (rest : list A) (s : S) :
  for_each f (x :: rest) s
  = match f x s with
    | (Ok y, s1) =>
        match for_each f rest s1 with
        | (Ok ys, s2) => (Ok (y :: ys), s2)
        | (Raise e, s2) => (Raise e, s2)
        end
    | (Raise e, s1) => (Raise e, s1)
    end.
Proof.
  cbn [for_each]. unfold bind, ret. destruct (f x s) as [[y | e] s1]; [| reflexivity].
  destruct (for_each f rest s1) as [[ys | e] s2]; reflexivity.
Qed.

Section Restructuring.

Import Ctx.

Context {collab : Collaborators}.

(** [from_standard_message] writes [system_message] only. *)
Lemma from_standard_message_frame (e : entry) (ctx : LLMContext) :
  cls (state_after (from_standard_message e) ctx) = cls ctx
  /\ _messages (state_after (from_standard_message e) ctx) = _messages ctx.
Proof.
  unfold state_after. destruct e as [m | c]; [| split; reflexivity].
  unfold from_standard_message, bind, lift, ret, raise, modify.
  destruct (Std.role m =? "system"); [split; reflexivity |].
  destruct (Std.tool_calls m) as [[| tc tcs] |];
    try (destruct (traverse from_tool_call (tc :: tcs)); split; reflexivity);
    (destruct (_ =? "tool");
     [ destruct (Std.content_key m) as [[s | items] |]; try (split; reflexivity);
       destruct (json_loads s); split; reflexivity
     | destruct (Std.content_key m) as [[s | items] |]; try (split; reflexivity);
       destruct (traverse from_content_item items); split; reflexivity ]).
Qed.

(** The translation pass leaves the class and the list as they were. *)
Lemma translation_frame (l : list entry) (ctx : LLMContext) :
  cls (state_after (for_each from_standard_message l) ctx) = cls ctx
  /\ _messages (state_after (for_each from_standard_message l) ctx) = _messages ctx.
Proof.
  revert ctx. induction l as [| e l IH]; intros ctx; [split; reflexivity |].
  unfold state_after in *. rewrite for_each_cons.
  pose proof (from_standard_message_frame e ctx) as [Hc Hm].
  unfold state_after in Hc, Hm.
  destruct (from_standard_message e ctx) as [[o | err] ctx1]; cbn in Hc, Hm;
    [| split; assumption].
  specialize (IH ctx1).
  destruct (for_each from_standard_message l ctx1) as [[os | err] ctx2];
    cbn in IH; cbn; destruct IH as [IHc IHm]; split; congruence.
Qed.

Lemma keep_with_parts_canonical (l : list Glm.Content) :
  exists kept,
    keep_with_parts (map Canon l) = Ok (map Canon kept)
    /\ Forall (fun c => Glm.parts c <> []) kept
    /\ (forall c, In c kept -> In c l).
Proof.
  induction l as [| c l (kept & Hk & Hall & Hsub)].
  - exists []. repeat split; [constructor | intros c []].
  - cbn [map keep_with_parts]. rewrite Hk.
    destruct (Glm.parts c) as [| p ps] eqn:Hp; cbn.
    + exists kept. repeat split; [assumption | intros x Hx; right; auto].
    + exists (c :: kept). repeat split.
      * constructor; [rewrite Hp; discriminate | assumption].
      * intros x [-> | Hx]; [left; reflexivity | right; auto].
Qed.

Lemma keep_with_parts_dicts (ms : list Std.message) :
  keep_with_parts (map Dict ms)
  = match ms with [] => Ok [] | _ :: _ => Raise AttributeError end.
Proof.
  destruct ms; reflexivity.
Qed.

(** The state the guarded translation leaves: the handler has swallowed
    any exception, and the list holds either what it held before or the
    canonical messages translated, followed in the system-only case by the
    user message made of the system text. *)
Lemma guarded_translation (ctx : LLMContext) :
  exists ctx',
    try_except translate_all (fun _ => ret tt) ctx = (Ok tt, ctx')
    /\ cls ctx' = cls ctx
    /\ ((exists translated extra,
            result_of (for_each from_standard_message (_messages ctx)) ctx = Ok translated
            /\ _messages ctx' = map Canon (drop_none translated ++ extra)
            /\ (extra = [] \/ exists s, extra = [user_text_message s]))
        \/ _messages ctx' = _messages ctx).
Proof.
  unfold try_except, translate_all, result_of.
  unfold bind at 1. unfold gets at 1.
  unfold bind at 1.
  destruct (translation_frame (_messages ctx) ctx) as [Hc Hm]. unfold state_after in Hc, Hm.
  destruct (for_each from_standard_message (_messages ctx) ctx) as [[translated | e] ctx1];
    cbn in Hc, Hm.
  - unfold bind, modify, gets. cbn.
    destruct (truthy_system_message (system_message ctx1)
              && negb (truthy_list (map Canon (drop_none translated)))) eqn:Hguard.
    + destruct (system_message ctx1) as [[s | items] |].
      * eexists. split; [reflexivity |]. split; [exact Hc |].
        left. exists translated, [user_text_message s].
        split; [reflexivity |]. split; [| right; exists s; reflexivity].
        cbn. rewrite map_app. reflexivity.
      * eexists. split; [reflexivity |]. split; [exact Hc |].
        left. exists translated, []. rewrite app_nil_r.
        split; [reflexivity |]. split; [reflexivity | left; reflexivity].
      * discriminate Hguard.
    + eexists. split; [reflexivity |]. split; [exact Hc |].
      left. exists translated, []. rewrite app_nil_r.
      split; [reflexivity |]. split; [reflexivity | left; reflexivity].
  - exists ctx1. split; [reflexivity |]. split; [exact Hc |]. right. exact Hm.
Qed.

(** Restructuring is the pruning of what the guarded translation left. *)
Lemma restructuring_runs (ctx : LLMContext) :
  exists ctx1,
    _restructure_from_openai_messages ctx = prune ctx1
    /\ cls ctx1 = cls ctx
    /\ ((exists translated extra,
            result_of (for_each from_standard_message (_messages ctx))
              (with_system_message None ctx) = Ok translated
            /\ _messages ctx1 = map Canon (drop_none translated ++ extra)
            /\ (extra = [] \/ exists s, extra = [user_text_message s]))
        \/ _messages ctx1 = _messages ctx).
Proof.
  destruct (guarded_translation (with_system_message None ctx))
    as (ctx1 & Hrun & Hc & Hshape).
  exists ctx1. split; [| split; assumption].
  cbv beta iota delta [_restructure_from_openai_messages bind modify].
  rewrite Hrun. reflexivity.
Qed.

Lemma restructuring_outcome (ms : list Std.message) (ctx : LLMContext) :
  _messages ctx = map Dict ms ->
  let ctx' := state_after _restructure_from_openai_messages ctx in
  Forall has_parts (_messages ctx')
  /\ match result_of _restructure_from_openai_messages ctx with
     | Ok _ => Forall canonical_with_parts (_messages ctx')
     | Raise _ => _messages ctx' = map Dict ms
     end.
Proof.
  intros Hms. cbn zeta.
  destruct (restructuring_runs ctx) as (ctx1 & Hwhole & _ & Hshape).
  unfold result_of, state_after. rewrite Hwhole. unfold prune, bind, gets.
  destruct Hshape as [(translated & extra & _ & Hl & _) | Hd].
  - rewrite Hl.
    destruct (keep_with_parts_canonical (drop_none translated ++ extra))
      as (kept & Hk & Hall & _).
    rewrite Hk. cbn. split; apply Forall_map; exact Hall.
  - rewrite Hd, Hms, keep_with_parts_dicts. destruct ms as [| m ms].
    + cbn. split; constructor.
    + cbn. rewrite Hd, Hms. split; [| reflexivity].
      apply Forall_map. apply Forall_forall. intros x _. exact I.
Qed.

Lemma restructuring_keeps_class (ctx : LLMContext) :
  cls (state_after _restructure_from_openai_messages ctx) = cls ctx.
Proof.
  destruct (restructuring_runs ctx) as (ctx1 & Hwhole & Hc & _).
  unfold state_after. rewrite Hwhole. unfold prune, bind, gets.
  destruct (keep_with_parts (_messages ctx1)); exact Hc.
Qed.

(** C5.  After [set_messages], whatever the input, and after the
    restructuring that an upgrade of a generic context runs, the context
    holds no canonical message whose parts are empty; when the operation
    returns, every entry is a canonical message with parts, and when it
    raises, the list still holds the standard messages, untranslated. *)
Theorem restructuring_prunes_empty_parts :
  (forall (ms : list Std.message) (ctx : LLMContext),
      let ctx' := state_after (set_messages ms) ctx in
      Forall has_parts (_messages ctx')
      /\ match result_of (set_messages ms) ctx with
         | Ok _ => Forall canonical_with_parts (_messages ctx')
         | Raise _ => _messages ctx' = map Dict ms
         end)
  /\ (forall (ms : list Std.message) (sm : option Std.content),
         let generic := mkContext OpenAILLMContext (map Dict ms) sm in
         let ctx' := state_after upgrade_to_google generic in
         Forall has_parts (_messages ctx')
         /\ match result_of upgrade_to_google generic with
            | Ok _ => Forall canonical_with_parts (_messages ctx')
            | Raise _ => _messages ctx' = map Dict ms
            end).
Proof.
  split.
  - intros ms ctx.
    exact (restructuring_outcome ms (with_messages (map Dict ms) ctx) eq_refl).
  - intros ms sm.
    exact (restructuring_outcome ms
             (mkContext GoogleLLMContext (map Dict ms) sm) eq_refl).
Qed.

(** C9.  An upgrade of a generic context sets the class and runs the
    restructuring once; the context it leaves is of the vendor class, and an
    upgrade of an already upgraded context returns at once and changes
    nothing: no restructuring, the same messages. *)
Theorem upgrade_idempotent :
  (forall (entries : list entry) (sm : option Std.content),
      upgrade_to_google (mkContext OpenAILLMContext entries sm)
      = _restructure_from_openai_messages (mkContext GoogleLLMContext entries sm))
  /\ (forall ctx : LLMContext,
         cls (state_after upgrade_to_google ctx) = GoogleLLMContext)
  /\ (forall ctx : LLMContext,
         let ctx' := state_after upgrade_to_google ctx in
         upgrade_to_google ctx' = (Ok tt, ctx')).
Proof.
  assert (Hcls : forall ctx, cls (state_after upgrade_to_google ctx) = GoogleLLMContext).
  { intros [k entries sm]. destruct k; [| reflexivity].
    exact (restructuring_keeps_class (mkContext GoogleLLMContext entries sm)). }
  split; [reflexivity |]. split; [exact Hcls |].
  intros ctx. cbn zeta. specialize (Hcls ctx).
  destruct (state_after upgrade_to_google ctx) as [k entries sm].
  cbn in Hcls. subst k. reflexivity.
Qed.

(** C6 (as amended).  When the translation pass yields no canonical
    message and a system message that is a non-empty string, [set_messages]
    returns and leaves exactly one message, of role user, whose only part is
    the system text; [system_message] holds that text. *)
Theorem system_only_context (ms : list Std.message) (ctx : LLMContext) (s : string) :
  restructuring_yields ms ctx = (Ok [], Some (Std.content_str s)) ->
  s <> "" ->
  set_messages ms ctx
  = (Ok tt, mkContext (cls ctx) [Canon (user_text_message s)]
              (Some (Std.content_str s))).
Proof.
  intros Hyields Hne. unfold restructuring_yields in Hyields.
  unfold set_messages, _restructure_from_openai_messages.
  unfold bind at 1. unfold modify at 1. unfold bind at 1. unfold modify at 1.
  set (c0 := with_system_message None (with_messages (map Dict ms) ctx)) in *.
  unfold bind at 1. unfold try_except, translate_all.
  unfold bind at 1. unfold gets at 1. unfold bind at 1.
  change (_messages c0) with (map Dict ms).
  destruct (translation_frame (map Dict ms) c0) as [Hc _]. unfold state_after in Hc.
  destruct (for_each from_standard_message (map Dict ms) c0) as [[translated | e] c1];
    [| discriminate Hyields].
  cbn in Hc. injection Hyields as Hnone Hsys.
  unfold bind, modify, gets. cbn. rewrite Hsys, Hnone. cbn.
  apply truthy_str_nonempty in Hne. rewrite Hne. cbn.
  unfold prune, bind, gets, modify, with_messages. cbn. rewrite Hc, Hsys. reflexivity.
Qed.

End Restructuring.

Section RestructuringOnExamples.

#[local] Existing Instance Demo.collaborators.

Lemma system_only_context_witness :
  Ctx.set_messages [Demo.system_message (Std.content_str "Be terse")] Demo.empty_context
  = (Ok tt, Ctx.mkContext Ctx.GoogleLLMContext
              [Ctx.Canon (user_text_message "Be terse")]
              (Some (Std.content_str "Be terse"))).
Proof.
  apply (system_only_context
           [Demo.system_message (Std.content_str "Be terse")] Demo.empty_context
           "Be terse").
  - reflexivity.
  - discriminate.
Defined.

(** The system-only rule as worded fails on an empty system text, and on a
    system content given as a list of items: the system message is
    extracted, no canonical message results, and the context is left with
    no message at all. *)
Lemma system_only_counterexamples :
  ~ system_only_as_stated [Demo.system_message (Std.content_str "")] Demo.empty_context
  /\ ~ system_only_as_stated
         [Demo.system_message (Std.content_list [Std.item_text "Be terse"])]
         Demo.empty_context.
Proof.
  split; intros H; specialize (H _ eq_refl); destruct H as (s & _ & H & _);
    vm_compute in H; discriminate H.
Qed.

(** Running the restructuring again on an upgraded context would not leave
    it alone: the canonical messages cannot be translated a second time,
    and the system message is lost. *)
Remark restructuring_twice_loses_system_message :
  let ctx := state_after Ctx.upgrade_to_google (Ctx.generic_context Demo.conversation) in
  Ctx.system_message ctx = Some (Std.content_str "Be terse")
  /\ Ctx.system_message (state_after Ctx._restructure_from_openai_messages ctx) = None.
Proof.
  split; reflexivity.
Qed.

End RestructuringOnExamples.

(** ** The round trip through the standard schema *)

Lemma split_on_comma_free (e : string) :
  comma_free e = true -> split_on comma e = [e].
Proof.
  induction e as [| c e IH]; [reflexivity |].
  cbn [comma_free split_on]. intros H. apply andb_prop in H as [Hc He].
  apply negb_true_iff in Hc. rewrite Hc, (IH He). reflexivity.
Qed.

Lemma split_on_prefix (p e : string) :
  comma_free p = true ->
  split_on comma (p ++ String comma e) = p :: split_on comma e.
Proof.
  induction p as [| c p IH]; [reflexivity |].
  cbn [comma_free]. intros H. apply andb_prop in H as [Hc Hp].
  apply negb_true_iff in Hc. cbn [append split_on]. rewrite Hc, (IH Hp). reflexivity.
Qed.

Lemma role_back (role : string) :
  role <> "assistant" -> role <> "system" ->
  let r' := if role =? "model" then "assistant" else role in
  (r' =? "system") = false
  /\ (if r' =? "assistant" then "model" else r') = role.
Proof.
  intros Ha Hs. cbn zeta. destruct (role =? "model") eqn:E.
  - apply String.eqb_eq in E. subst role. split; reflexivity.
  - apply String.eqb_neq in Ha, Hs. rewrite Hs, Ha. split; reflexivity.
Qed.

Section RoundTrip.

Import Ctx.

Context {collab : Collaborators}.

Lemma traverse_calls (tcs : list Std.tool_call) (ps : list Glm.Part) :
  traverse from_tool_call tcs = Ok ps ->
  length ps = length tcs /\ Forall (fun p => is_call p = true) ps.
Proof.
  revert ps. induction tcs as [| tc tcs IH]; intros ps H.
  - injection H as <-. split; [reflexivity | constructor].
  - cbn [traverse] in H. unfold from_tool_call at 1 in H.
    destruct (json_loads _) as [args |]; [| discriminate H].
    destruct (traverse from_tool_call tcs) as [rest |]; [| discriminate H].
    injection H as <-. destruct (IH rest eq_refl) as [Hl Hf].
    split; [cbn; rewrite Hl; reflexivity | constructor; [reflexivity | exact Hf]].
Qed.

Lemma traverse_items (items : list Std.content_item) (added : list (list Glm.Part)) :
  traverse from_content_item items = Ok added ->
  Forall text_or_jpeg (concat added).
Proof.
  revert added. induction items as [| c items IH]; intros added H.
  - injection H as <-. constructor.
  - cbn [traverse] in H.
    destruct (from_content_item c) as [one |] eqn:Hone; [| discriminate H].
    destruct (traverse from_content_item items) as [rest |]; [| discriminate H].
    injection H as <-. cbn [concat]. apply Forall_app. split; [| exact (IH rest eq_refl)].
    destruct c as [t | url | other]; unfold from_content_item in Hone.
    + injection Hone as <-. constructor; [exact I | constructor].
    + destruct (nth_error (split_on comma url) 1) as [payload |]; [| discriminate Hone].
      destruct (b64decode payload) as [d |]; [| discriminate Hone].
      injection Hone as <-. constructor; [reflexivity | constructor].
    + injection Hone as <-. constructor.
Qed.

(** Whatever [from_standard_message] returns has one of the three shapes. *)
Lemma translation_shape (e : entry) (ctx ctx' : LLMContext) (c : Glm.Content) :
  from_standard_message e ctx = (Ok (Some c), ctx') -> translated_shape c.
Proof.
  destruct e as [m | c0]; [| discriminate].
  unfold from_standard_message, bind, lift, ret, raise, modify.
  destruct (Std.role m =? "system") eqn:Hsys; [discriminate |].
  set (role := if Std.role m =? "assistant" then "model" else Std.role m).
  assert (Ha : role <> "assistant").
  { subst role. destruct (Std.role m =? "assistant") eqn:E; [discriminate |].
    apply String.eqb_neq. exact E. }
  assert (Hs : role <> "system").
  { subst role. destruct (Std.role m =? "assistant") eqn:E; [discriminate |].
    apply String.eqb_neq. exact Hsys. }
  clearbody role.
  assert (Hrest :
    (if role =? "tool"
     then match Std.content_key m with
          | Some (Std.content_str s) =>
              match json_loads s with
              | Some response =>
                  fun x : LLMContext =>
                    (Ok (Some (Glm.mkContent "model"
                                 [Glm.function_response "tool_call_result" response])), x)
              | None => fun s0 : LLMContext => (Raise ValueError, s0)
              end
          | Some (Std.content_list _) => fun s : LLMContext => (Raise TypeError, s)
          | None => fun s : LLMContext => (Raise KeyError, s)
          end
     else match match Std.content_key m with
                | Some c => c
                | None => Std.content_list []
                end with
          | Std.content_str s =>
              fun s0 : LLMContext =>
                (Ok (Some (Glm.mkContent role [Glm.text s])), s0)
          | Std.content_list items =>
              fun s : LLMContext =>
                match traverse from_content_item items with
                | Ok a => (Ok (Some (Glm.mkContent role (concat a))), s)
                | Raise e => (Raise e, s)
                end
          end) ctx = (Ok (Some c), ctx') -> translated_shape c).
  { destruct (role =? "tool") eqn:Ht.
    - destruct (Std.content_key m) as [[s | items] |]; try discriminate.
      destruct (json_loads s) as [r |]; [| discriminate].
      intros H. injection H as <- _. apply shape_response.
    - apply String.eqb_neq in Ht.
      destruct (Std.content_key m) as [[s | items] |].
      + intros H. injection H as <- _.
        apply shape_content; try assumption. constructor; [exact I | constructor].
      + destruct (traverse from_content_item items) as [added |] eqn:Hi; [| discriminate].
        intros H. injection H as <- _.
        apply shape_content; try assumption. exact (traverse_items items added Hi).
      + intros H. injection H as <- _.
        apply shape_content; try assumption. constructor. }
  destruct (Std.tool_calls m) as [[| tc tcs] |]; try exact Hrest.
  destruct (traverse from_tool_call (tc :: tcs)) as [ps |] eqn:Hps; [| discriminate].
  intros H. injection H as <- _.
  destruct (traverse_calls _ _ Hps) as [Hl Hf].
  apply shape_calls; try assumption.
  destruct ps; [discriminate Hl | discriminate].
Qed.

Lemma translated_shapes (l : list entry) (ctx : LLMContext)
  (translated : list (option Glm.Content)) :
  result_of (for_each from_standard_message l) ctx = Ok translated ->
  Forall translated_shape (drop_none translated).
Proof.
  unfold result_of. revert ctx translated.
  induction l as [| e l IH]; intros ctx translated H.
  - injection H as <-. constructor.
  - rewrite for_each_cons in H.
    destruct (from_standard_message e ctx) as [[o | err] ctx1] eqn:He; [| discriminate H].
    specialize (IH ctx1).
    destruct (for_each from_standard_message l ctx1) as [[os | err] ctx2];
      [| discriminate H].
    injection H as <-. specialize (IH os eq_refl).
    destruct o as [c |]; cbn [drop_none]; [| exact IH].
    constructor; [exact (translation_shape e ctx ctx1 c He) | exact IH].
Qed.

(** Every canonical message [set_messages] leaves has one of the shapes. *)
Lemma restructured_members (ms : list Std.message) (ctx : LLMContext) (c : Glm.Content) :
  In (Canon c) (_messages (state_after (set_messages ms) ctx)) ->
  translated_shape c.
Proof.
  unfold state_after, set_messages. unfold bind at 1. unfold modify at 1.
  set (c0 := with_messages (map Dict ms) ctx).
  destruct (restructuring_runs c0) as (ctx1 & Hwhole & _ & Hshape).
  rewrite Hwhole. unfold prune, bind, gets.
  destruct Hshape as [(translated & extra & Htr & Hl & Hextra) | Hd].
  - rewrite Hl.
    destruct (keep_with_parts_canonical (drop_none translated ++ extra))
      as (kept & Hk & _ & Hsub).
    rewrite Hk. cbn. intros Hin. apply in_map_iff in Hin as (c' & Heq & Hin).
    injection Heq as ->. apply Hsub, in_app_or in Hin as [Hin | Hin].
    + apply translated_shapes in Htr. rewrite Forall_forall in Htr. exact (Htr c Hin).
    + destruct Hextra as [-> | [s ->]]; [destruct Hin |].
      destruct Hin as [<- | []].
      apply shape_content; try discriminate. constructor; [exact I | constructor].
  - change (_messages c0) with (map Dict ms) in Hd. rewrite Hd, keep_with_parts_dicts.
    destruct ms as [| m ms]; cbn; [intros [] |].
    rewrite Hd. intros Hin. apply in_map_iff in Hin as (x & Heq & _). discriminate Heq.
Qed.

Context {laws : Base64Laws collab}.

Lemma data_url_payload (d : bytes) :
  nth_error (split_on comma ("data:" ++ "image/jpeg" ++ ";base64," ++ b64encode d)) 1
  = Some (b64encode d).
Proof.
  change ("data:" ++ "image/jpeg" ++ ";base64," ++ b64encode d)%string
    with ("data:image/jpeg;base64" ++ String comma (b64encode d))%string.
  rewrite split_on_prefix by reflexivity.
  rewrite split_on_comma_free by apply b64encode_comma_free. reflexivity.
Qed.

Lemma item_of_back (p : Glm.Part) :
  text_or_jpeg p -> from_content_item (item_of p) = Ok [p].
Proof.
  destruct p as [s | mime d | n a | n r]; cbn [text_or_jpeg]; try contradiction.
  - reflexivity.
  - intros ->. unfold item_of, from_content_item.
    rewrite data_url_payload, b64decode_b64encode. reflexivity.
Qed.

Lemma items_back (ps : list Glm.Part) :
  Forall text_or_jpeg ps ->
  exists added, traverse from_content_item (map item_of ps) = Ok added
                /\ concat added = ps.
Proof.
  induction 1 as [| p ps Hp _ (added & Ha & Hc)].
  - exists []. split; reflexivity.
  - exists ([p] :: added). cbn [map traverse]. rewrite (item_of_back p Hp), Ha.
    split; [reflexivity | cbn; rewrite Hc; reflexivity].
Qed.

Lemma content_parts_forth (ps : list Glm.Part) :
  Forall text_or_jpeg ps ->
  Forall (fun p => match p with Glm.text s => s <> "" | _ => True end) ps ->
  forall (role : string) (acc : list Std.content_item),
    to_standard_parts (Std.mkMessage role (Some (Std.content_list acc)) None None) ps
    = Ok (Std.mkMessage role (Some (Std.content_list (acc ++ map item_of ps))) None None).
Proof.
  induction 1 as [| p ps Hp _ IH]; intros Htexts role acc.
  - cbn. rewrite app_nil_r. reflexivity.
  - inversion Htexts as [| ? ? Hs Hrest]; subst.
    cbn [to_standard_parts map].
    assert (Hone : to_standard_part
                     (Std.mkMessage role (Some (Std.content_list acc)) None None) p
                   = Ok (Std.mkMessage role
                           (Some (Std.content_list (acc ++ [item_of p]))) None None)).
    { destruct p as [s | mime d | n a | n r]; cbn [text_or_jpeg] in Hp;
        try contradiction.
      - apply truthy_str_nonempty in Hs. unfold to_standard_part, Glm.has_text.
        rewrite Hs. reflexivity.
      - subst mime. reflexivity. }
    rewrite Hone, (IH Hrest role (acc ++ [item_of p])), <- app_assoc. reflexivity.
Qed.

(** The round trip of one message of a translated shape. *)
Lemma shape_round_trips (c : Glm.Content) :
  translated_shape c ->
  texts_nonempty c -> at_most_one_call c -> representable c ->
  exists m,
    to_standard_messages c = Ok [m]
    /\ (forall ctx, from_standard_message (Dict m) ctx = (Ok (Some c), ctx))
    /\ ids_from_names c m.
Proof.
  intros Hshape Htexts Hone Hrep.
  destruct Hshape as [role ps Ha Hs Hne Hcalls | r | role ps Ha Hs Ht Hparts].
  - (* one function call *)
    unfold at_most_one_call in Hone. cbn [Glm.parts] in Hone.
    destruct ps as [| p ps]; [congruence |].
    inversion Hcalls as [| ? ? Hp Hps]; subst.
    destruct p as [s | mime d | n a | n r]; try discriminate Hp.
    destruct ps as [| q ps].
    2: { inversion Hps as [| ? ? Hq _]; subst. cbn in Hone. rewrite Hq in Hone.
         cbn in Hone. lia. }
    unfold representable in Hrep. cbn [Glm.parts] in Hrep.
    inversion Hrep as [| ? ? Hj _]; subst. cbv beta iota in Hj.
    destruct Hj as [Hloads _].
    destruct (role_back role Ha Hs) as [Hsys Hback]. cbn zeta in Hsys, Hback.
    unfold to_standard_messages. cbn.
    set (r' := if role =? "model" then "assistant" else role) in *. clearbody r'.
    eexists. split; [reflexivity |]. split.
    + intros ctx. unfold from_standard_message. cbn.
      rewrite Hsys. unfold bind, lift, ret. cbn. unfold from_tool_call. cbn.
      rewrite Hloads, Hback. reflexivity.
    + split.
      * intros tcs tc Htcs Hin. cbn in Htcs. injection Htcs as <-.
        destruct Hin as [<- | []]. reflexivity.
      * intros n' r Hin. cbn in Hin. destruct Hin as [Hin | []]. discriminate Hin.
  - (* a function response *)
    unfold representable in Hrep. cbn [Glm.parts] in Hrep.
    inversion Hrep as [| ? ? Hj _]; subst. cbv beta iota in Hj.
    destruct Hj as [Hloads Hdumps].
    apply truthy_str_nonempty in Hdumps.
    unfold to_standard_messages. cbn. rewrite Hdumps.
    eexists. split; [reflexivity |]. split.
    + intros ctx. unfold from_standard_message. cbn. rewrite Hloads. reflexivity.
    + split.
      * intros tcs tc Htcs. discriminate Htcs.
      * intros n' r' Hin. cbn in Hin. destruct Hin as [Hin | []].
        injection Hin as <- _. reflexivity.
  - (* texts and inline images *)
    destruct (role_back role Ha Hs) as [Hsys Hback]. cbn zeta in Hsys, Hback.
    apply String.eqb_neq in Ht.
    unfold to_standard_messages. cbn [Glm.role Glm.parts].
    rewrite (content_parts_forth ps Hparts Htexts). cbn [app Std.content_key].
    destruct (items_back ps Hparts) as (added & Hadded & Hconcat).
    set (r' := if role =? "model" then "assistant" else role) in *. clearbody r'.
    assert (Hids : forall m, Std.tool_calls m = None -> ids_from_names
                                (Glm.mkContent role ps) m).
    { intros m Hnone. split.
      - intros tcs tc Htcs. congruence.
      - intros n r Hin. cbn in Hin. rewrite Forall_forall in Hparts.
        destruct (Hparts _ Hin). }
    destruct ps as [| p ps].
    + cbn. eexists. split; [reflexivity |]. split; [| apply Hids; reflexivity].
      intros ctx. unfold from_standard_message. cbn.
      rewrite Hsys, Hback, Ht. reflexivity.
    + cbn [map Std.truthy_content truthy_list].
      eexists. split; [reflexivity |]. split; [| apply Hids; reflexivity].
      intros ctx. unfold from_standard_message.
      cbn [Std.role Std.content_key Std.tool_calls].
      rewrite Hsys, Hback, Ht. unfold bind, lift, ret.
      change (item_of p :: map item_of ps) with (map item_of (p :: ps)).
      rewrite Hadded, Hconcat. reflexivity.
Qed.

(** C3 (as amended).  Every canonical message left by [set_messages]
    whose texts are non-empty, which carries at most one function call and
    whose mappings are JSON-representable is given back unchanged by
    [to_standard_messages] followed by [from_standard_message], roles
    included; in between, a tool call's id and a tool result's id are the
    function name the canonical message carries.  System entries do not
    take part: they are not in the list. *)
Theorem round_trip_after_set_messages
  (ms : list Std.message) (ctx : LLMContext) (c : Glm.Content) :
  In (Canon c) (_messages (state_after (set_messages ms) ctx)) ->
  texts_nonempty c -> at_most_one_call c -> representable c ->
  exists m,
    to_standard_messages c = Ok [m]
    /\ (forall ctx', from_standard_message (Dict m) ctx' = (Ok (Some c), ctx'))
    /\ ids_from_names c m.
Proof.
  intros Hin. apply shape_round_trips. exact (restructured_members ms ctx c Hin).
Qed.

End RoundTrip.

(** ** The round trip on examples *)

Lemma decode_encode_byte (b : byte) :
  Demo.decode_byte (Demo.hex_digit (Byte.to_nat b / 16))
    (Demo.hex_digit (Byte.to_nat b mod 16)) = Some b.
Proof.
  destruct b; vm_compute; reflexivity.
Qed.

Lemma encode_byte_comma_free (b : byte) :
  comma_free (Demo.encode_byte b) = true.
Proof.
  destruct b; vm_compute; reflexivity.
Qed.

Lemma comma_free_app (s t : string) :
  comma_free s = true -> comma_free t = true -> comma_free (s ++ t) = true.
Proof.
  induction s as [| c s IH]; intros Hs Ht; [exact Ht |].
  cbn [comma_free append] in *. apply andb_prop in Hs as [Hc Hs].
  rewrite Hc, (IH Hs Ht). reflexivity.
Qed.

Lemma demo_base64_laws : Base64Laws Demo.collaborators.
Proof.
  split; intros d; cbn [b64encode b64decode Demo.collaborators].
  - induction d as [| b d IH]; [reflexivity |].
    change (Demo.encode (b :: d))
      with (String (Demo.hex_digit (Byte.to_nat b / 16))
              (String (Demo.hex_digit (Byte.to_nat b mod 16)) (Demo.encode d))).
    cbn [Demo.decode]. rewrite decode_encode_byte, IH. reflexivity.
  - induction d as [| b d IH]; [reflexivity |].
    cbn [Demo.encode]. apply comma_free_app; [apply encode_byte_comma_free | exact IH].
Qed.

Section RoundTripOnExamples.

#[local] Existing Instance Demo.collaborators.
#[local] Existing Instance demo_base64_laws.

Lemma round_trip_after_set_messages_witness :
  let after := state_after (Ctx.set_messages Demo.conversation) Demo.empty_context in
  let picture := Glm.mkContent "user"
                   [Glm.text "look"; Glm.inline_data "image/jpeg" [Byte.xff; Byte.x00]] in
  let request := Glm.mkContent "model" [Glm.function_call "get_weather" []] in
  (In (Ctx.Canon picture) (Ctx._messages after) /\ round_trips picture)
  /\ (In (Ctx.Canon request) (Ctx._messages after) /\ round_trips request).
Proof.
  cbn zeta. split.
  - assert (Hin : In (Ctx.Canon
                        (Glm.mkContent "user"
                           [Glm.text "look";
                            Glm.inline_data "image/jpeg" [Byte.xff; Byte.x00]]))
                    (Ctx._messages
                       (state_after (Ctx.set_messages Demo.conversation)
                          Demo.empty_context))).
    { vm_compute. right. right. right. left. reflexivity. }
    split; [exact Hin |].
    destruct (round_trip_after_set_messages Demo.conversation Demo.empty_context _ Hin)
      as (m & Hto & Hfrom & _).
    + repeat constructor. discriminate.
    + unfold at_most_one_call. cbn. lia.
    + repeat constructor.
    + exists m. split; assumption.
  - assert (Hin : In (Ctx.Canon
                        (Glm.mkContent "model" [Glm.function_call "get_weather" []]))
                    (Ctx._messages
                       (state_after (Ctx.set_messages Demo.conversation)
                          Demo.empty_context))).
    { vm_compute. right. left. reflexivity. }
    split; [exact Hin |].
    destruct (round_trip_after_set_messages Demo.conversation Demo.empty_context _ Hin)
      as (m & Hto & Hfrom & _).
    + repeat constructor.
    + unfold at_most_one_call. cbn. lia.
    + constructor; [| constructor]. split; [reflexivity | discriminate].
    + exists m. split; assumption.
Defined.

(** The round-trip law as worded fails on a user message with an empty
    text (the text part is dropped on the way to the standard schema, and
    the message comes back without parts) and on an assistant message with
    two tool calls (only the last one is kept). *)
Lemma round_trip_counterexamples :
  ~ round_trip_as_stated [Demo.user_message ""] Demo.empty_context
  /\ ~ round_trip_as_stated
         [Std.mkMessage "assistant" None
            (Some [Demo.call "get_weather"; Demo.call "get_time"]) None]
         Demo.empty_context.
Proof.
  split; intros H; unfold round_trip_as_stated in H.
  - assert (E : Ctx._messages
                  (state_after (Ctx.set_messages [Demo.user_message ""])
                     Demo.empty_context)
                = [Ctx.Canon (Glm.mkContent "user" [Glm.text ""])]) by reflexivity.
    rewrite E in H. inversion H as [| ? ? Hc _]; subst.
    destruct Hc as (m & Hto & Hfrom). vm_compute in Hto. injection Hto as <-.
    specialize (Hfrom Demo.empty_context). vm_compute in Hfrom. discriminate Hfrom.
  - assert (E : Ctx._messages
                  (state_after
                     (Ctx.set_messages
                        [Std.mkMessage "assistant" None
                           (Some [Demo.call "get_weather"; Demo.call "get_time"]) None])
                     Demo.empty_context)
                = [Ctx.Canon (Glm.mkContent "model"
                                [Glm.function_call "get_weather" [];
                                 Glm.function_call "get_time" []])]) by reflexivity.
    rewrite E in H. inversion H as [| ? ? Hc _]; subst.
    destruct Hc as (m & Hto & Hfrom). vm_compute in Hto. injection Hto as <-.
    specialize (Hfrom Demo.empty_context). vm_compute in Hfrom. discriminate Hfrom.
Qed.

End RoundTripOnExamples.

(* ================================================================== *)
(** * Further properties of the context *)
(* ================================================================== *)

Section ContextOperations.

Import Ctx.
Import GoogleLLMContext.

Context {collab : Collaborators}.

Lemma log_views (l : list Glm.Content) :
  exists views,
    traverse log_view (map Canon l) = Ok views
    /\ length views = length l
    /\ map role_key views = map Glm.role l
    /\ Forall (fun v => Forall redacted (parts_key v)) views
    /\ traverse log_view (map Canon (map without_payloads l)) = Ok views.
Proof.
  induction l as [| c l (views & Hv & Hlen & Hroles & Hred & Hsame)].
  - exists []. repeat split; constructor.
  - cbn [map traverse]. unfold log_view at 1 3. rewrite Hv, Hsame.
    eexists. split; [reflexivity |]. cbn [length map role_key].
    rewrite Hlen, Hroles. repeat split.
    + constructor; [| exact Hred]. cbn [parts_key to_dict].
      apply Forall_map. apply Forall_map. apply Forall_forall.
      intros p _. destruct p; exact I || reflexivity.
    + do 2 f_equal. unfold to_dict, without_payloads. cbn [Glm.role Glm.parts role_key parts_key].
      f_equal. rewrite !map_map. apply map_ext. intros p. destruct p; reflexivity.
Qed.

(** X1.  The log view of a context of canonical messages has one entry per
    message, in order and with the same roles; every inline payload reads
    "..." in it, so that the view is the same as that of the context with
    all its payloads emptied; the context is not changed. *)
Theorem log_view_hides_payloads (l : list Glm.Content) (ctx : LLMContext) :
  let held := with_messages (map Canon l) ctx in
  exists views,
    get_messages_for_logging held = (Ok views, held)
    /\ length views = length l
    /\ map role_key views = map Glm.role l
    /\ Forall (fun v => Forall redacted (parts_key v)) views
    /\ result_of get_messages_for_logging
         (with_messages (map Canon (map without_payloads l)) ctx) = Ok views.
Proof.
  cbn zeta. destruct (log_views l) as (views & Hv & Hlen & Hroles & Hred & Hsame).
  exists views. unfold result_of, get_messages_for_logging, bind, gets, lift. cbn.
  rewrite Hv, Hsame. repeat split; assumption.
Qed.

(** X2.  [add_audio_frames_message] never raises, does nothing on an empty
    list of frames and otherwise appends one message whose audio payload is
    the header followed by the frames' bytes in order; the message depends
    on the frames only through the format of the first one and the
    concatenated bytes: how the audio is cut into frames, and the format of
    later frames, make no difference. *)
Theorem audio_message_by_bytes
  (header : nat -> nat -> nat -> nat -> bytes)
  (frames frames' : list AudioRawFrame) (caption : option string) (ctx : LLMContext) :
  concat (map audio frames) = concat (map audio frames') ->
  option_map (fun f => (sample_rate f, num_channels f)) (hd_error frames)
  = option_map (fun f => (sample_rate f, num_channels f)) (hd_error frames') ->
  add_audio_frames_message header frames caption ctx
  = add_audio_frames_message header frames' caption ctx
  /\ result_of (add_audio_frames_message header frames caption) ctx = Ok tt
  /\ match frames with
     | [] => state_after (add_audio_frames_message header frames caption) ctx = ctx
     | first :: _ =>
         exists leading,
           _messages (state_after (add_audio_frames_message header frames caption) ctx)
           = _messages ctx
               ++ [Canon (Glm.mkContent "user"
                            (leading
                               ++ [Glm.inline_data "audio/wav"
                                     (header (sample_rate first) (num_channels first) 16
                                        (length (concat (map audio frames)))
                                        ++ concat (map audio frames))]))]
           /\ length leading <= 1
     end.
Proof.
  intros Hbytes Hformat. split; [| split].
  - destruct frames as [| f fs], frames' as [| f' fs']; try discriminate Hformat;
      [reflexivity |].
    cbn in Hformat. injection Hformat as Hr Hc.
    unfold add_audio_frames_message. rewrite Hbytes, Hr, Hc. reflexivity.
  - destruct frames; reflexivity.
  - destruct frames as [| f fs]; [reflexivity |].
    eexists. split; [reflexivity |].
    destruct caption as [t |]; [destruct (truthy_str t) |]; cbn; lia.
Qed.

Lemma non_system_leaves_state (m : Std.message) (ctx : LLMContext) :
  (Std.role m =? "system") = false ->
  state_after (from_standard_message (Dict m)) ctx = ctx.
Proof.
  intros Hrole. unfold state_after, from_standard_message, bind, lift, ret, raise.
  rewrite Hrole.
  destruct (Std.tool_calls m) as [[| tc tcs] |];
    try (destruct (traverse from_tool_call (tc :: tcs)); reflexivity);
    (destruct (_ =? "tool");
     [ destruct (Std.content_key m) as [[s | items] |]; try reflexivity;
       destruct (json_loads s); reflexivity
     | destruct (Std.content_key m) as [[s | items] |]; try reflexivity;
       destruct (traverse from_content_item items); reflexivity ]).
Qed.

Lemma system_sets_message (m : Std.message) (ctx : LLMContext) :
  (Std.role m =? "system") = true ->
  from_standard_message (Dict m) ctx
  = (Ok None,
     with_system_message
       (Some (match Std.content_key m with
              | Some c => c
              | None => Std.content_list []
              end)) ctx).
Proof.
  intros Hrole. unfold from_standard_message, bind, modify, ret. rewrite Hrole.
  reflexivity.
Qed.

Lemma translation_system_message (ms : list Std.message) (ctx ctx' : LLMContext)
  (translated : list (option Glm.Content)) :
  for_each from_standard_message (map Dict ms) ctx = (Ok translated, ctx') ->
  system_message ctx' = last_system ms (system_message ctx).
Proof.
  revert ctx translated. induction ms as [| m ms IH]; intros ctx translated H.
  - injection H as _ <-. reflexivity.
  - cbn [map] in H. rewrite for_each_cons in H. cbn [last_system].
    destruct (Std.role m =? "system") eqn:Hrole.
    + rewrite (system_sets_message m ctx Hrole) in H.
      destruct (for_each from_standard_message (map Dict ms) _) as [[os | e] c2] eqn:Hrest;
        [| discriminate H].
      injection H as _ <-. exact (IH _ _ Hrest).
    + pose proof (non_system_leaves_state m ctx Hrole) as Hsame. unfold state_after in Hsame.
      destruct (from_standard_message (Dict m) ctx) as [[o | e] c1]; [| discriminate H].
      cbn in Hsame. subst c1.
      destruct (for_each from_standard_message (map Dict ms) ctx) as [[os | e] c2] eqn:Hrest;
        [| discriminate H].
      injection H as _ <-. exact (IH _ _ Hrest).
Qed.

(** What [set_messages] comes to, by the outcome of the translation pass. *)
Lemma set_messages_outcome (ms : list Std.message) (ctx : LLMContext) :
  match for_each from_standard_message (map Dict ms)
          (with_system_message None (with_messages (map Dict ms) ctx)) with
  | (Raise e, c1) =>
      set_messages ms ctx = (Raise AttributeError, c1) /\ _messages c1 = map Dict ms
  | (Ok translated, c1) =>
      exists kept, set_messages ms ctx = (Ok tt, with_messages kept c1)
  end.
Proof.
  set (c0 := with_system_message None (with_messages (map Dict ms) ctx)).
  assert (Hrun : set_messages ms ctx
                 = bind (try_except translate_all (fun _ => ret tt)) (fun _ => prune) c0)
    by reflexivity.
  rewrite Hrun. clear Hrun.
  destruct (translation_frame (map Dict ms) c0) as [_ Hm]. unfold state_after in Hm.
  change (_messages c0) with (map Dict ms) in Hm.
  cbv beta iota delta [bind try_except translate_all gets].
  change (_messages c0) with (map Dict ms).
  destruct (for_each from_standard_message (map Dict ms) c0) as [[translated | e] c1] eqn:Hfor;
    cbn in Hm.
  - unfold modify. cbn.
    assert (Hprune : forall (l : list Glm.Content) (c : LLMContext),
              cls c = cls c1 -> system_message c = system_message c1 ->
              _messages c = map Canon l ->
              exists kept, prune c = (Ok tt, with_messages kept c1)).
    { intros l c Hc Hs Hl. unfold prune, bind, gets, modify. rewrite Hl.
      destruct (keep_with_parts_canonical l) as (kept & Hk & _).
      rewrite Hk. exists (map Canon kept). unfold with_messages. rewrite Hc, Hs.
      reflexivity. }
    destruct (truthy_system_message (system_message c1)
              && negb (truthy_list (map Canon (drop_none translated)))).
    + destruct (system_message c1) as [[s | items] |] eqn:Hsm.
      * apply (Hprune (drop_none translated ++ [user_text_message s])); cbn;
          rewrite ?map_app; try reflexivity. exact Hsm.
      * apply (Hprune (drop_none translated)); cbn; try reflexivity. exact Hsm.
      * apply (Hprune (drop_none translated)); cbn; try reflexivity. exact Hsm.
    + apply (Hprune (drop_none translated)); reflexivity.
  - unfold ret, prune, bind, gets. rewrite Hm, keep_with_parts_dicts.
    destruct ms as [| m ms]; [discriminate Hfor |]. split; reflexivity.
Qed.

(** X3.  When [set_messages] returns, [system_message] is the content of
    the last system entry of the list it was given (an absent content
    reading as the empty list), and [None] when the list has no system
    entry: of several system entries only the last one is kept. *)
Theorem last_system_message_wins (ms : list Std.message) (ctx : LLMContext) :
  result_of (set_messages ms) ctx = Ok tt ->
  system_message (state_after (set_messages ms) ctx) = last_system ms None.
Proof.
  unfold result_of, state_after. pose proof (set_messages_outcome ms ctx) as H.
  destruct (for_each from_standard_message (map Dict ms) _) as [[translated | e] c1] eqn:Hfor.
  - destruct H as (kept & ->). intros _. cbn.
    exact (translation_system_message ms _ c1 translated Hfor).
  - destruct H as [-> _]. discriminate.
Qed.

(** X4.  When the translation of any message of the list raises,
    [set_messages] raises [AttributeError] and the context is left holding
    the standard messages as they were given, none of them translated, not
    even those before the faulty one; [system_message] is what the entries
    before the faulty one made it. *)
Theorem failed_translation_keeps_dicts
  (ms : list Std.message) (ctx : LLMContext) (e : exn) (sm : option Std.content) :
  restructuring_yields ms ctx = (Raise e, sm) ->
  result_of (set_messages ms) ctx = Raise AttributeError
  /\ _messages (state_after (set_messages ms) ctx) = map Dict ms
  /\ system_message (state_after (set_messages ms) ctx) = sm.
Proof.
  unfold restructuring_yields, result_of, state_after.
  pose proof (set_messages_outcome ms ctx) as H.
  destruct (for_each from_standard_message (map Dict ms) _) as [[translated | e'] c1];
    [discriminate |].
  destruct H as [-> Hm]. intros Hy. injection Hy as _ <-. repeat split. exact Hm.
Qed.

Lemma traverse_call_names (tcs : list Std.tool_call) (ps : list Glm.Part) :
  traverse from_tool_call tcs = Ok ps ->
  map call_name ps = map (fun tc => Some (Std.name (Std.function tc))) tcs.
Proof.
  revert ps. induction tcs as [| tc tcs IH]; intros ps H.
  - injection H as <-. reflexivity.
  - cbn [traverse] in H. unfold from_tool_call at 1 in H.
    destruct (json_loads _) as [args |]; [| discriminate H].
    destruct (traverse from_tool_call tcs) as [rest |]; [| discriminate H].
    injection H as <-. cbn. rewrite (IH rest eq_refl). reflexivity.
Qed.

(** X5.  Tool calls take precedence over content: a message that is not a
    system message and carries tool calls is translated from its calls
    alone, whatever its content and its tool_call_id; when the translation
    returns, the message has exactly one function-call part per tool call,
    in order and under the calls' names, and the context is not changed. *)
Theorem tool_calls_take_precedence
  (role : string) (tc : Std.tool_call) (tcs : list Std.tool_call)
  (content content' : option Std.content) (id id' : option string) (ctx : LLMContext) :
  (role =? "system") = false ->
  from_standard_message (Dict (Std.mkMessage role content (Some (tc :: tcs)) id)) ctx
  = from_standard_message (Dict (Std.mkMessage role content' (Some (tc :: tcs)) id')) ctx
  /\ state_after
       (from_standard_message (Dict (Std.mkMessage role content (Some (tc :: tcs)) id)))
       ctx = ctx
  /\ match result_of
             (from_standard_message
                (Dict (Std.mkMessage role content (Some (tc :: tcs)) id))) ctx with
     | Ok (Some c) =>
         map call_name (Glm.parts c)
         = map (fun t => Some (Std.name (Std.function t))) (tc :: tcs)
     | Ok None => False
     | Raise e => e = ValueError
     end.
Proof.
  intros Hrole. split; [| split].
  - unfold from_standard_message. cbn [Std.role Std.tool_calls]. rewrite Hrole.
    reflexivity.
  - apply non_system_leaves_state. exact Hrole.
  - unfold result_of, from_standard_message, bind, lift, ret.
    cbn [Std.role Std.tool_calls]. rewrite Hrole.
    destruct (traverse from_tool_call (tc :: tcs)) as [ps | e] eqn:Hps; cbn.
    + exact (traverse_call_names _ _ Hps).
    + clear -Hps. revert Hps. generalize (tc :: tcs). intros l.
      induction l as [| x l IH]; [discriminate |].
      cbn [traverse]. unfold from_tool_call at 1.
      destruct (json_loads _); [| intros H; injection H as <-; reflexivity].
      destruct (traverse from_tool_call l); [discriminate |].
      intros H. injection H as <-. apply IH. reflexivity.
Qed.

Lemma last_call_acc (ps : list Glm.Part) (acc : option (string * Struct)) :
  last_call ps acc
  = match last_call ps None with Some x => Some x | None => acc end.
Proof.
  revert acc. induction ps as [| p ps IH]; intros acc; [reflexivity |].
  destruct p as [s | m d | n a | n r]; cbn [last_call]; try apply IH.
  rewrite (IH (Some (n, a))). destruct (last_call ps None); reflexivity.
Qed.

Lemma to_standard_parts_outcome (ps : list Glm.Part) (msg : Std.message) :
  Std.content_key msg <> None ->
  if visible_after_response
       (match Std.content_key msg with Some (Std.content_str _) => true | _ => false end)
       ps
  then to_standard_parts msg ps = Raise AttributeError
  else exists m,
      to_standard_parts msg ps = Ok m
      /\ Std.content_key m <> None
      /\ Std.tool_calls m
         = match last_call ps None with
           | Some na => calls_of (Some na)
           | None => Std.tool_calls msg
           end
      /\ Std.role m = if existsb is_response ps then "tool" else Std.role msg.
Proof.
  revert msg. induction ps as [| p ps IH]; intros msg Hc.
  - cbn. exists msg. repeat split. exact Hc.
  - assert (Hvisible : forall item,
              if (match Std.content_key msg with
                  | Some (Std.content_str _) => true | _ => false end)
                 || visible_after_response
                      (match Std.content_key msg with
                       | Some (Std.content_str _) => true | _ => false end) ps
              then match append_content item msg with
                   | Ok msg' => to_standard_parts msg' ps
                   | Raise e => Raise e
                   end = Raise AttributeError
              else exists m,
                  match append_content item msg with
                  | Ok msg' => to_standard_parts msg' ps
                  | Raise e => Raise e
                  end = Ok m
                  /\ Std.content_key m <> None
                  /\ Std.tool_calls m
                     = match last_call ps None with
                       | Some na => calls_of (Some na)
                       | None => Std.tool_calls msg
                       end
                  /\ Std.role m = if existsb is_response ps then "tool" else Std.role msg).
    { intros item. unfold append_content.
      destruct (Std.content_key msg) as [[str | l] |] eqn:Hk;
        [reflexivity | | contradiction].
      cbn [orb].
      specialize (IH (Std.mkMessage (Std.role msg) (Some (Std.content_list (l ++ [item])))
                        (Std.tool_calls msg) (Std.tool_call_id msg))).
      cbn [Std.content_key Std.tool_calls Std.role] in IH. apply IH. discriminate. }
    destruct p as [s | m d | n a | n r];
      cbn [visible_after_response to_standard_parts last_call existsb is_response orb];
      unfold is_visible, to_standard_part; cbn [Glm.has_text Glm.has_inline_data].
    + destruct (truthy_str s); [apply Hvisible | exact (IH msg Hc)].
    + destruct (truthy_str m || truthy_list d); [apply Hvisible | exact (IH msg Hc)].
    + rewrite last_call_acc.
      specialize (IH (Std.mkMessage (Std.role msg) (Std.content_key msg)
                        (Some [Std.mkToolCall n "function"
                                 (Std.mkFunction n (json_dumps a))])
                        (Std.tool_call_id msg)) Hc).
      cbn [Std.content_key Std.tool_calls Std.role] in IH.
      destruct (visible_after_response _ ps); [exact IH |].
      destruct IH as (m & Hm & Hk & Ht & Hr). exists m. repeat split; try assumption.
      rewrite Ht. destruct (last_call ps None); reflexivity.
    + specialize (IH (Std.mkMessage "tool" (Some (Std.content_str (json_dumps r)))
                        (Std.tool_calls msg) (Some n))).
      cbn [Std.content_key Std.tool_calls Std.role] in IH.
      destruct (visible_after_response true ps); [apply IH; discriminate |].
      destruct IH as (m & Hm & Hk & Ht & Hr); [discriminate |].
      exists m. repeat split; try assumption.
      rewrite Hr. destruct (existsb is_response ps); reflexivity.
Qed.

(** X6.  [to_standard_messages] on a message whose calls and responses
    are named: it raises [AttributeError] exactly when a text or an inline
    image comes after a function response (the content is a string by
    then); otherwise it returns exactly one message, whose [tool_calls]
    hold the last function call of the message only (earlier calls are
    overwritten), whose role is tool when there is a function response and
    otherwise the message's own, with model renamed assistant, and whose
    content is never an empty list. *)
Theorem to_standard_message_outcome (c : Glm.Content) :
  Forall named (Glm.parts c) ->
  if visible_after_response false (Glm.parts c)
  then to_standard_messages c = Raise AttributeError
  else exists m,
      to_standard_messages c = Ok [m]
      /\ Std.tool_calls m = calls_of (last_call (Glm.parts c) None)
      /\ Std.role m
         = (if existsb is_response (Glm.parts c) then "tool"
            else if Glm.role c =? "model" then "assistant" else Glm.role c)
      /\ Std.content_key m <> Some (Std.content_list []).
Proof.
  intros _. unfold to_standard_messages.
  pose proof (to_standard_parts_outcome (Glm.parts c)
                (Std.mkMessage (if Glm.role c =? "model" then "assistant" else Glm.role c)
                   (Some (Std.content_list [])) None None)) as H.
  cbn [Std.content_key Std.tool_calls Std.role] in H.
  destruct (visible_after_response false (Glm.parts c)).
  - rewrite H; [reflexivity | discriminate].
  - destruct H as (m & Hm & Hk & Ht & Hr); [discriminate |]. rewrite Hm.
    assert (Hcalls : Std.tool_calls m = calls_of (last_call (Glm.parts c) None)).
    { rewrite Ht. destruct (last_call (Glm.parts c) None) as [[n a] |]; reflexivity. }
    destruct (Std.content_key m) as [k |] eqn:Hkey; [| contradiction].
    destruct (Std.truthy_content k) eqn:Htruthy.
    + exists m. repeat split; try assumption. rewrite Hkey. intros Heq.
      injection Heq as ->. discriminate Htruthy.
    + eexists. split; [reflexivity |]. cbn. repeat split; try assumption. discriminate.
Qed.

End ContextOperations.

(* ================================================================== *)
(** * Speech synthesis *)
(* ================================================================== *)

Section SpeechSynthesis.

Import GoogleTTSService.

Lemma chunk_size_pos : 0 < chunk_size.
Proof.
  apply Nat.ltb_lt. vm_compute. reflexivity.
Qed.

#[local] Opaque chunk_size.

Lemma send_chunks_cut (self : state) (b : bytes) (n j : nat) (l : list effect) :
  send_chunks self b (map (fun k => k * chunk_size) (seq j n)) l
  = (Ok tt,
     l ++ flat_map (sent (sample_rate (_settings self)))
            (cut n (skipn (j * chunk_size) b))).
Proof.
  revert j l. induction n as [| n IH]; intros j l.
  - cbn [seq map send_chunks cut flat_map]. rewrite app_nil_r. reflexivity.
  - cbn [seq map send_chunks cut]. unfold slice.
    replace (j * chunk_size + chunk_size - j * chunk_size) with chunk_size by lia.
    destruct (firstn chunk_size (skipn (j * chunk_size) b)) as [| x c].
    + cbn [flat_map]. rewrite app_nil_r. reflexivity.
    + unfold bind, perform, modify. rewrite IH. rewrite skipn_skipn.
      replace (S j * chunk_size) with (chunk_size + j * chunk_size) by lia.
      cbn [flat_map]. unfold sent at 2. rewrite <- !app_assoc. reflexivity.
Qed.

Lemma cut_concat (n : nat) (b : bytes) :
  length b <= n * chunk_size -> concat (cut n b) = b.
Proof.
  revert b. induction n as [| n IH]; intros b Hn.
  - destruct b; [reflexivity | cbn in Hn; lia].
  - cbn [cut]. pose proof chunk_size_pos as Hpos.
    destruct (firstn chunk_size b) as [| x c] eqn:Hfirst.
    + destruct b as [| y b]; [reflexivity |].
      destruct chunk_size; [lia | discriminate Hfirst].
    + cbn [concat]. rewrite <- Hfirst, IH; [apply firstn_skipn |].
      rewrite length_skipn. lia.
Qed.

Lemma cut_sizes (n : nat) (b : bytes) :
  Forall (fun c => c <> [] /\ length c <= chunk_size) (cut n b).
Proof.
  revert b. induction n as [| n IH]; intros b; [constructor |].
  cbn [cut]. destruct (firstn chunk_size b) as [| x c] eqn:Hfirst; constructor.
  - split; [discriminate |]. rewrite <- Hfirst, length_firstn. lia.
  - apply IH.
Qed.

Lemma cut_full (n : nat) (b : bytes) :
  Forall (fun c => length c = chunk_size) (removelast (cut n b)).
Proof.
  revert b. induction n as [| n IH]; intros b; [constructor |].
  cbn [cut]. destruct (firstn chunk_size b) as [| x c] eqn:Hfirst; [constructor |].
  specialize (IH (skipn chunk_size b)).
  destruct (cut n (skipn chunk_size b)) as [| c' cs] eqn:Hrest; [constructor |].
  change (removelast ((x :: c) :: c' :: cs))
    with ((x :: c) :: removelast (c' :: cs)).
  constructor; [| exact IH].
  rewrite <- Hfirst, length_firstn.
  assert (Hmore : skipn chunk_size b <> []).
  { intros Hnil. rewrite Hnil in Hrest. destruct n; [discriminate Hrest |].
    cbn [cut] in Hrest. rewrite firstn_nil in Hrest. discriminate Hrest. }
  assert (Hlen : length (skipn chunk_size b) <> 0).
  { intros H0. apply Hmore. apply length_zero_iff_nil. exact H0. }
  rewrite length_skipn in Hlen. lia.
Qed.

Lemma range_covers (len : nat) :
  len <= (len + chunk_size - 1) / chunk_size * chunk_size.
Proof.
  pose proof chunk_size_pos as Hpos.
  pose proof (Nat.div_mod_eq (len + chunk_size - 1) chunk_size) as Hdiv.
  pose proof (Nat.mod_upper_bound (len + chunk_size - 1) chunk_size) as Hmod.
  rewrite (Nat.mul_comm _ chunk_size). lia.
Qed.

(** X14.  What [run_tts] does, run to the end.  When the synthesis
    raises, the exception is logged and the frames are one error frame,
    whose message is the exception's text after "TTS generation error: ",
    and one stopped frame; no started frame is yielded and no usage is
    recorded.  When it returns, usage is recorded, the started frame is
    yielded, then the audio after its first 44 bytes in pieces, each sent
    after stopping the time-to-first-byte metric, and then the stopped
    frame twice (at the end of the body and again on the way out); the
    pieces, put end to end, are that audio, none is empty, each has at
    most 8192 bytes and all but the last exactly that many. *)
Theorem run_tts_trace (str : exn -> string) (self : state) (client : synthesis)
  (text : string) (before : list effect) :
  let request :=
    synthesize_speech (_construct_ssml self text) (language (_settings self))
      (_voice_id self) (sample_rate (_settings self)) in
  match client with
  | SynthesisRaises e =>
      run_tts str self client text before
      = (Ok tt,
         before
           ++ [start_ttfb_metrics; request; log_exception e;
               yield (ErrorFrame ("TTS generation error: " ++ str e)%string);
               yield TTSStoppedFrame])
  | Synthesized content =>
      exists pieces,
        run_tts str self client text before
        = (Ok tt,
           before
             ++ [start_ttfb_metrics; request; start_tts_usage_metrics text;
                 yield TTSStartedFrame]
             ++ flat_map (sent (sample_rate (_settings self))) pieces
             ++ [yield TTSStoppedFrame; yield TTSStoppedFrame])
        /\ concat pieces = skipn 44 content
        /\ Forall (fun c => c <> [] /\ length c <= chunk_size) pieces
        /\ Forall (fun c => length c = chunk_size) (removelast pieces)
  end.
Proof.
  cbn zeta. destruct client as [e | content].
  - unfold run_tts, try_finally, try_except, synthesize, bind, perform, modify, raise.
    cbn [fst snd]. rewrite <- !app_assoc. reflexivity.
  - set (audio_content := skipn 44 content).
    exists (cut ((length audio_content + chunk_size - 1) / chunk_size) audio_content).
    split; [| split; [| split]].
    + unfold run_tts, try_finally, try_except, synthesize.
      fold audio_content. unfold range_step.
      unfold bind, perform, modify. rewrite send_chunks_cut.
      change (0 * chunk_size) with 0. cbn [skipn]. rewrite <- !app_assoc. reflexivity.
    + apply cut_concat, range_covers.
    + apply cut_sizes.
    + apply cut_full.
Qed.

Lemma ssml_shape (self : state) (text : string) :
  exists rest,
    _construct_ssml self text
    = ("<speak><voice name='" ++ _voice_id self ++ "' language='"
         ++ format (language (_settings self)) ++ "'" ++ rest)%string.
Proof.
  unfold _construct_ssml, attr.
  destruct (truthy (gender (_settings self)));
    destruct (truthy_list (prosody_attrs (_settings self)));
    destruct (truthy (emphasis (_settings self)));
    destruct (truthy (google_style (_settings self)));
    eexists; cbn [app String.concat];
    rewrite ?string_app_assoc; cbn [String.append];
    rewrite ?string_app_assoc; cbn [String.append]; reflexivity.
Qed.

(** X15.  The markup [_construct_ssml] builds is well nested: the text,
    taken as it is, is enclosed in a speak element, a voice element
    carrying the voice's name, the language and, when set, the gender, and
    then, each only when its setting is set, a prosody, an emphasis and a
    style element, in this order; the closing tags come in the reverse
    order of the opening ones. *)
Theorem ssml_well_nested (self : state) (text : string) :
  let s := _settings self in
  exists inner,
    _construct_ssml self text
    = wrap
        (mkElement "speak" ""
           :: mkElement "voice"
                (" " ++ String.concat " "
                          ([("name='" ++ _voice_id self ++ "'")%string;
                            ("language='" ++ format (language s) ++ "'")%string]
                             ++ attr "gender" (gender s)))%string
           :: inner) text
    /\ map tag inner
       = (if truthy_list (prosody_attrs s) then ["prosody"] else [])
           ++ (if truthy (emphasis s) then ["emphasis"] else [])
           ++ (if truthy (google_style s) then ["google:style"] else []).
Proof.
  cbn zeta. unfold _construct_ssml.
  exists ((if truthy_list (prosody_attrs (_settings self))
           then [mkElement "prosody"
                   (" " ++ String.concat " " (prosody_attrs (_settings self)))%string]
           else [])
            ++ (if truthy (emphasis (_settings self))
                then [mkElement "emphasis"
                        (" level='" ++ format (emphasis (_settings self)) ++ "'")%string]
                else [])
            ++ (if truthy (google_style (_settings self))
                then [mkElement "google:style"
                        (" name='" ++ format (google_style (_settings self)) ++ "'")%string]
                else [])).
  destruct (truthy_list (prosody_attrs (_settings self)));
    destruct (truthy (emphasis (_settings self)));
    destruct (truthy (google_style (_settings self)));
    (split; [| reflexivity]);
    cbn [app wrap tag attributes];
    rewrite ?string_app_assoc; cbn [String.append];
    rewrite ?string_app_assoc; reflexivity.
Qed.

(** X16.  A language outside the language map has no service language:
    the settings made for it hold no language, so that the synthesis
    request carries no language code and the voice element of the markup
    reads language='None'.  The default en-US applies only when no language
    is given at all. *)
Theorem unmapped_language_reads_none
  (voice_id : string) (rate_hz : nat) (params : InputParams) (l : Language)
  (text : string) :
  params_language params = Some l ->
  get l language_map = None ->
  let self := mkState (init rate_hz params) voice_id in
  language (_settings self) = None
  /\ (exists rest,
        _construct_ssml self text
        = ("<speak><voice name='" ++ voice_id ++ "' language='None'" ++ rest)%string)
  /\ language (init rate_hz
                 (mkInputParams (params_pitch params) (params_rate params)
                    (params_volume params) (params_emphasis params) None
                    (params_gender params) (params_google_style params)))
     = Some "en-US".
Proof.
  intros Hl Hget. cbn zeta.
  assert (Hnone : language (init rate_hz params) = None).
  { unfold init. cbn [language]. rewrite Hl.
    unfold language_to_service_language, language_to_google_language. exact Hget. }
  split; [exact Hnone |]. split; [| reflexivity].
  destruct (ssml_shape (mkState (init rate_hz params) voice_id) text) as (rest & Hrest).
  cbn [_settings _voice_id] in Hrest. rewrite Hnone in Hrest.
  exists rest. exact Hrest.
Qed.

End SpeechSynthesis.

(* ================================================================== *)
(** * The generation parameters *)
(* ================================================================== *)

Section GenerationParameters.

Import GoogleLLMService.

Variable float : Type.

(** X18.  The generation parameters hold, under its key, every setting
    that is not [None], a zero included, and nothing for a setting that is
    [None]; no key occurs twice; and the configuration handed to the model
    is [None] exactly when all four settings are [None]. *)
Theorem generation_params_keep_set_values (s : settings float) :
  lookup float "temperature" (generation_params float s)
  = option_map (float_value float) (temperature float s)
  /\ lookup float "top_p" (generation_params float s)
     = option_map (float_value float) (top_p float s)
  /\ lookup float "top_k" (generation_params float s)
     = option_map (int_value float) (top_k float s)
  /\ lookup float "max_output_tokens" (generation_params float s)
     = option_map (int_value float) (max_tokens float s)
  /\ NoDup (map fst (generation_params float s))
  /\ generation_config float s
     = match temperature float s, top_p float s, top_k float s, max_tokens float s with
       | None, None, None, None => None
       | _, _, _, _ => Some (generation_params float s)
       end.
Proof.
  destruct s as [[m |] [t |] [k |] [p |]]; cbn;
    repeat split;
    repeat (constructor; [cbn; intuition discriminate |]); constructor.
Qed.

End GenerationParameters.

(* ================================================================== *)
(** * The further properties on examples *)
(* ================================================================== *)

Section FurtherExamples.

#[local] Existing Instance Demo.collaborators.

(** Three bytes of audio in two frames of different formats, and the same
    bytes in one frame of the first format. *)
Lemma audio_message_by_bytes_witness :
  let header := fun rate channels bits size : nat => @nil Byte.byte in
  GoogleLLMContext.add_audio_frames_message header
    [GoogleLLMContext.mkAudioRawFrame [Byte.x01; Byte.x02] 1600 1;
     GoogleLLMContext.mkAudioRawFrame [Byte.x03] 800 2] None Demo.empty_context
  = GoogleLLMContext.add_audio_frames_message header
      [GoogleLLMContext.mkAudioRawFrame [Byte.x01; Byte.x02; Byte.x03] 1600 1]
      None Demo.empty_context.
Proof.
  exact (proj1
    (audio_message_by_bytes (fun _ _ _ _ => [])
       [GoogleLLMContext.mkAudioRawFrame [Byte.x01; Byte.x02] 1600 1;
        GoogleLLMContext.mkAudioRawFrame [Byte.x03] 800 2]
       [GoogleLLMContext.mkAudioRawFrame [Byte.x01; Byte.x02; Byte.x03] 1600 1]
       None Demo.empty_context eq_refl eq_refl)).
Defined.

(** Two system entries around a user message. *)
Lemma last_system_message_wins_witness :
  let ms := [Demo.system_message (Std.content_str "Be terse");
             Demo.user_message "hi";
             Demo.system_message (Std.content_str "Be kind")] in
  result_of (Ctx.set_messages ms) Demo.empty_context = Ok tt
  /\ Ctx.system_message (state_after (Ctx.set_messages ms) Demo.empty_context)
     = Some (Std.content_str "Be kind").
Proof.
  split; [reflexivity |].
  exact (last_system_message_wins
           [Demo.system_message (Std.content_str "Be terse");
            Demo.user_message "hi";
            Demo.system_message (Std.content_str "Be kind")]
           Demo.empty_context eq_refl).
Defined.

(** A tool result that is not JSON, after a user message. *)
Lemma failed_translation_keeps_dicts_witness :
  let ms := [Demo.user_message "hi";
             Std.mkMessage "tool" (Some (Std.content_str "sunny")) None (Some "call_1")] in
  restructuring_yields ms Demo.empty_context = (Raise ValueError, None)
  /\ result_of (Ctx.set_messages ms) Demo.empty_context = Raise AttributeError
  /\ Ctx._messages (state_after (Ctx.set_messages ms) Demo.empty_context)
     = map Ctx.Dict ms.
Proof.
  split; [reflexivity |].
  pose proof (failed_translation_keeps_dicts
                [Demo.user_message "hi";
                 Std.mkMessage "tool" (Some (Std.content_str "sunny")) None
                   (Some "call_1")]
                Demo.empty_context ValueError None eq_refl) as H.
  exact (conj (proj1 H) (proj1 (proj2 H))).
Defined.

(** An assistant message with one tool call, with and without a text. *)
Lemma tool_calls_take_precedence_witness :
  Ctx.from_standard_message
    (Ctx.Dict (Std.mkMessage "assistant" (Some (Std.content_str "one moment"))
                 (Some [Demo.call "get_weather"]) None))
    Demo.empty_context
  = Ctx.from_standard_message
      (Ctx.Dict (Std.mkMessage "assistant" None (Some [Demo.call "get_weather"]) None))
      Demo.empty_context.
Proof.
  exact (proj1
    (tool_calls_take_precedence "assistant" (Demo.call "get_weather") []
       (Some (Std.content_str "one moment")) None None None Demo.empty_context
       eq_refl)).
Defined.

(** A message with two function calls: the second is the one exported. *)
Lemma to_standard_message_outcome_witness :
  let c := Glm.mkContent "model"
             [Glm.function_call "get_weather" []; Glm.function_call "get_time" []] in
  Forall named (Glm.parts c)
  /\ exists m,
      Ctx.to_standard_messages c = Ok [m]
      /\ Std.tool_calls m = calls_of (Some ("get_time", [])).
Proof.
  assert (Hnamed : Forall named
                     [Glm.function_call "get_weather" []; Glm.function_call "get_time" []])
    by (repeat constructor).
  split; [exact Hnamed |].
  destruct (to_standard_message_outcome
              (Glm.mkContent "model"
                 [Glm.function_call "get_weather" []; Glm.function_call "get_time" []])
              Hnamed) as (m & Hm & Hcalls & _).
  exists m. split; [exact Hm | exact Hcalls].
Defined.

(** An attachment pending with an empty buffer. *)
Lemma attachment_alone_commits_text_witness :
  let s := Demo.assistant "" None 0 (Some Demo.pixel) in
  appended s (state_after GoogleAssistantContextAggregator._push_aggregation s)
  = [Ctx.Canon (Glm.mkContent "model" [Glm.text ""]);
     Ctx.Canon (image_message Demo.pixel [Byte.x80])].
Proof.
  exact (attachment_alone_commits_text
           (Demo.assistant "" None 0 (Some Demo.pixel)) Demo.pixel eq_refl eq_refl).
Defined.

(** A blocked chunk without candidates, followed by a chunk of text. *)
Lemma unreadable_chunk_ends_stream_witness :
  let u := Service.mkUsage 1 2 3 in
  let blocked := Service.mkChunk (Service.mkUsage 0 0 0) (Raise TransportError) [] in
  let late := Service.mkChunk (Service.mkUsage 0 0 0) (Ok [Glm.text "late"]) [0] in
  stops blocked = true
  /\ Service._process_context
       (Service.Streaming u [Service.Yield blocked u; Service.Yield late u])
       Demo.empty_context (Service.enter None [])
     = Service._process_context
         (Service.Streaming u [Service.Yield blocked u])
         Demo.empty_context (Service.enter None []).
Proof.
  split; [reflexivity |].
  exact (proj1
    (unreadable_chunk_ends_stream
       (Service.mkChunk (Service.mkUsage 0 0 0) (Raise TransportError) [])
       (Service.mkUsage 1 2 3) (Service.mkUsage 1 2 3) []
       [Service.Yield (Service.mkChunk (Service.mkUsage 0 0 0) (Ok [Glm.text "late"]) [0])
          (Service.mkUsage 1 2 3)]
       Demo.empty_context None [] eq_refl)).
Defined.

(** A language that the map does not list. *)
Lemma unmapped_language_reads_none_witness :
  let params := GoogleTTSService.mkInputParams None None None None (Some "AR") None None in
  GoogleTTSService.get "AR" GoogleTTSService.language_map = None
  /\ GoogleTTSService.language (GoogleTTSService.init 2400 params) = None.
Proof.
  split; [reflexivity |].
  exact (proj1
    (unmapped_language_reads_none "en-US-Neural2-A" 2400
       (GoogleTTSService.mkInputParams None None None None (Some "AR") None None)
       "AR" "hello" eq_refl eq_refl)).
Defined.

End FurtherExamples.
